(** * subql-ethereum indexing core: shallow embedding and checked properties

    The development follows the TypeScript sources component by component:

    - [Unfinalized]    the unfinalized-blocks tracker (unfinalizedBlocks.service.ts)
    - [BatchProvider]  the batched JSON-RPC provider (json-rpc-batch-provider.ts)
    - [DictV2]         construction of dictionary v2 query entries (ethDictionaryV2.ts)
    - [DictV1]         the query window of the v1 dictionary (dictionaryV1.ts)
    - [Web]            the HTTP attempt loop of [_fetchData] (web.ts)
    - [Abi]            ABI decoding of logs and transactions (api.ethereum.ts)
    - [UnfinalizedInv] invariants of the tracker's record list
    - [BatchQueue]     the request queue and the size probe of the batch provider
    - [ChainApi]       the finalized height and its fallback (api.ethereum.ts)
    - [ApiService]     fetching a batch with retries (api.service.ethereum.ts)
    - [DictV1Data]     reading a v1 dictionary response (dictionaryV1.ts, coreDictionary.ts)
    - [Poll]           polling with a retry limit (web.ts)
    - [DictV2Conditions] what a handler contributes to a v2 query entry

    JavaScript numbers that hold block heights, sizes and status codes are
    integers here ([Z]); strings are [string]; promises are run to completion
    and their rejection is an explicit outcome. *)

From Stdlib Require Import ZArith Lia Bool Ascii String.
From stdpp Require Import base option list sorting gmap strings.

Local Open Scope string_scope.
Local Open Scope list_scope.
Local Open Scope Z_scope.

(** ** JavaScript conventions shared by the components *)

Module Js.

(** How a call of an [async] function (or of a function that may throw) ends:
    it returns, it throws, it terminates the process ([process.exit]), or the
    model ran out of fuel inside an unbounded loop. *)
Inductive Outcome (A : Type) : Type :=
| Return (a : A)
| Throw (msg : string)
| Exit (code : Z)
| OutOfFuel.
Arguments Return {A} a.
Arguments Throw {A} msg.
Arguments Exit {A} code.
Arguments OutOfFuel {A}.

Definition bind {A B} (m : Outcome A) (k : A -> Outcome B) : Outcome B :=
  match m with
  | Return a => k a
  | Throw e => Throw e
  | Exit c => Exit c
  | OutOfFuel => OutOfFuel
  end.

(** [try { m } catch (e) { h e }] *)
Definition try_catch {A} (m : Outcome A) (h : string -> Outcome A) : Outcome A :=
  match m with
  | Throw e => h e
  | other => other
  end.

(** Truthiness of a string: every string but the empty one. *)
Definition truthy (s : string) : bool := negb (s =? "")%string.

(** Truthiness of an optional string property ([undefined] is falsy). *)
Definition truthy_opt (o : option string) : bool :=
  match o with Some s => truthy s | None => false end.

(** Truthiness of an array: an array is an object, so it is truthy whatever
    its length. *)
Definition truthy_array {A} (l : list A) : bool := true.

(** [String.prototype.toLowerCase] on the ASCII range (addresses and hashes
    are hexadecimal text). *)
Definition lower_ascii (c : ascii) : ascii :=
  let n := nat_of_ascii c in
  if ((65 <=? n)%nat && (n <=? 90)%nat)%bool then ascii_of_nat (n + 32) else c.

Fixpoint toLowerCase (s : string) : string :=
  match s with
  | EmptyString => EmptyString
  | String c r => String (lower_ascii c) (toLowerCase r)
  end.

End Js.

Notation "x <- m ;; k" := (Js.bind m (fun x => k))
  (at level 100, m at next level, right associativity, only parsing).

(** ** Unfinalized blocks tracker *)

Module Unfinalized.
Import Js.

(** The fields of an ethers [Block] that the tracker reads. *)
Record Block := mkBlock { number : Z; hash : string; parentHash : string }.

(** Argument of [EthereumApi.getBlockByHeightOrHash]. *)
Inductive HeightOrHash := ByHeight (h : Z) | ByHash (h : string).

(** The chain as seen through the RPC endpoint; [None] is a rejected call. *)
Definition Api := HeightOrHash -> option Block.

Definition getBlockByHeightOrHash (api : Api) (x : HeightOrHash) : Outcome Block :=
  match api x with
  | Some b => Return b
  | None => Throw "getBlock failed"
  end.

(** [type UnfinalizedBlocks = [blockHeight: number, blockHash: string][]] *)
Definition UnfinalizedBlocks := list (Z * string).

(** Values stored in the [_metadata] table. The unfinalized list is kept as
    the list itself (its JSON text is not modelled). *)
Inductive MetaValue :=
| MBlocks (l : UnfinalizedBlocks)
| MNumber (n : Z)
| MNull.

Definition METADATA_UNFINALIZED_BLOCKS_KEY := "unfinalizedBlocks".
Definition METADATA_LAST_FINALIZED_PROCESSED_KEY := "lastFinalizedVerifiedHeight".

(** The service object. [lastCheckedBlockHeight] is [undefined] ([None])
    until a verified height has been stored. Writes made through the
    sequelize transaction go to [metadataRepo] directly. *)
Record Service := mkService {
  unfinalizedBlocks : UnfinalizedBlocks;
  finalizedHeader : Block;
  lastCheckedBlockHeight : option Z;
  metadataRepo : gmap string MetaValue
}.

Definition finalizedBlockNumber (s : Service) : Z := number (finalizedHeader s).

Definition setMetadata (key : string) (v : MetaValue) (s : Service) : Service :=
  mkService (unfinalizedBlocks s) (finalizedHeader s) (lastCheckedBlockHeight s)
            (<[key := v]> (metadataRepo s)).

Definition saveUnfinalizedBlocks (l : UnfinalizedBlocks) (s : Service) : Service :=
  setMetadata METADATA_UNFINALIZED_BLOCKS_KEY (MBlocks l) s.

Definition saveLastFinalizedVerifiedHeight (h : Z) (s : Service) : Service :=
  setMetadata METADATA_LAST_FINALIZED_PROCESSED_KEY (MNumber h) s.

Definition set_unfinalizedBlocks (l : UnfinalizedBlocks) (s : Service) : Service :=
  mkService l (finalizedHeader s) (lastCheckedBlockHeight s) (metadataRepo s).

Definition set_lastChecked (h : option Z) (s : Service) : Service :=
  mkService (unfinalizedBlocks s) (finalizedHeader s) h (metadataRepo s).

Definition registerFinalizedBlock (header : Block) (s : Service) : Service :=
  if finalizedBlockNumber s >=? number header then s
  else mkService (unfinalizedBlocks s) header (lastCheckedBlockHeight s) (metadataRepo s).

Definition registerUnfinalizedBlock (blockNumber : Z) (h : string) (s : Service)
  : Outcome Service :=
  if blockNumber <=? finalizedBlockNumber s then Return s
  else
    match last (unfinalizedBlocks s) with
    | Some (lastHeight, _) =>
        (* the list is not empty *)
        if negb (lastHeight + 1 =? blockNumber) then Exit 1
        else
          let l := unfinalizedBlocks s ++ [(blockNumber, h)] in
          Return (saveUnfinalizedBlocks l (set_unfinalizedBlocks l s))
    | None =>
        let l := unfinalizedBlocks s ++ [(blockNumber, h)] in
        Return (saveUnfinalizedBlocks l (set_unfinalizedBlocks l s))
    end.

(** [Array.prototype.findIndex] for the predicate [height === blockHeight];
    [None] is JavaScript's [-1]. *)
Fixpoint findIndex (blockHeight : Z) (l : UnfinalizedBlocks) : option nat :=
  match l with
  | [] => None
  | (height, _) :: r =>
      if height =? blockHeight then Some 0%nat
      else match findIndex blockHeight r with
           | Some i => Some (S i)
           | None => None
           end
  end.

Definition removeFinalized (blockHeight : Z) (s : Service) : Service :=
  match findIndex blockHeight (unfinalizedBlocks s) with
  | Some index => set_unfinalizedBlocks (drop (S index) (unfinalizedBlocks s)) s
  | None => s
  end.

Definition deleteFinalizedBlock (s : Service) : Service :=
  let s1 :=
    match lastCheckedBlockHeight s with
    | Some lc =>
        if lc <? finalizedBlockNumber s then
          let s' := removeFinalized (finalizedBlockNumber s) s in
          let s'' := saveLastFinalizedVerifiedHeight (finalizedBlockNumber s') s' in
          saveUnfinalizedBlocks (unfinalizedBlocks s'') s''
        else s
    | None => s
    end in
  set_lastChecked (Some (finalizedBlockNumber s1)) s1.

Definition getClosestRecord (blockHeight : Z) (s : Service) : option (Z * string) :=
  List.find (fun r => fst r <=? blockHeight) (rev (unfinalizedBlocks s)).

(** The [while] loop of [hasForked]: follow parent hashes until the header
    at [target] is reached. *)
Fixpoint walkToHeight (api : Api) (fuel : nat) (target : Z) (header : Block)
  : Outcome Block :=
  if target =? number header then Return header
  else
    match fuel with
    | O => OutOfFuel
    | S fuel' =>
        parent <- getBlockByHeightOrHash api (ByHash (parentHash header)) ;;
        walkToHeight api fuel' target parent
    end.

Definition hasForked (api : Api) (fuel : nat) (s : Service) : Outcome bool :=
  match getClosestRecord (finalizedBlockNumber s) s with
  | None => Return false
  | Some (blockHeight, recHash) =>
      if blockHeight =? finalizedBlockNumber s then
        Return (negb (recHash =? hash (finalizedHeader s))%string)
      else
        header <-
          (if number (finalizedHeader s) - blockHeight >? 200
           then getBlockByHeightOrHash api (ByHeight blockHeight)
           else walkToHeight api fuel blockHeight (finalizedHeader s)) ;;
        Return (negb (hash header =? recHash)%string)
  end.

(** The [for] loop of [getLastCorrectFinalizedBlock] over the reversed
    verifiable records. *)
Fixpoint findLastCorrect (api : Api) (s : Service) (checkingHeader : Block)
  (records : UnfinalizedBlocks) : Outcome (option Z) :=
  match records with
  | [] => Return (lastCheckedBlockHeight s)
  | (block, h) :: rest =>
      if ((h =? hash checkingHeader)%string || (h =? parentHash checkingHeader)%string)%bool
      then Return (Some block)
      else
        next <- getBlockByHeightOrHash api (ByHash (parentHash (finalizedHeader s))) ;;
        findLastCorrect api s next rest
  end.

Definition getLastCorrectFinalizedBlock (api : Api) (s : Service) : Outcome (option Z) :=
  let bestVerifiableBlocks :=
    List.filter (fun r => fst r <=? finalizedBlockNumber s) (unfinalizedBlocks s) in
  findLastCorrect api s (finalizedHeader s) (rev bestVerifiableBlocks).

(** Result of [processUnfinalizedBlocks]: [null], or the rewind height
    (which is [undefined] when no verified height was ever stored). *)
Inductive Rewind := Null | RewindTo (h : option Z).

Definition processUnfinalizedBlocks (api : Api) (fuel : nat)
  (block : option (Z * string)) (s : Service) : Outcome (Service * Rewind) :=
  s1 <- match block with
        | Some (n, h) => registerUnfinalizedBlock n h s
        | None => Return s
        end ;;
  forked <- hasForked api fuel s1 ;;
  if negb forked then Return (deleteFinalizedBlock s1, Null)
  else
    h <- getLastCorrectFinalizedBlock api s1 ;;
    Return (s1, RewindTo h).

(** *** The rewind search as the specification words it

    For every verifiable record, newest first, the canonical header at the
    record's own height is fetched; the record matches when its hash is that
    header's hash or the parent hash of the header checked just before. *)
Fixpoint findLastCorrect_spec (api : Api) (s : Service) (checked : Block)
  (records : UnfinalizedBlocks) : Outcome (option Z) :=
  match records with
  | [] => Return (lastCheckedBlockHeight s)
  | (block, h) :: rest =>
      canonical <- getBlockByHeightOrHash api (ByHeight block) ;;
      if ((h =? hash canonical)%string || (h =? parentHash checked)%string)%bool
      then Return (Some block)
      else findLastCorrect_spec api s canonical rest
  end.

Definition getLastCorrectFinalizedBlock_spec (api : Api) (s : Service)
  : Outcome (option Z) :=
  findLastCorrect_spec api s (finalizedHeader s)
    (rev (List.filter (fun r => fst r <=? finalizedBlockNumber s) (unfinalizedBlocks s))).

(** Heights grow from one record to the next. *)
Fixpoint ascending (l : UnfinalizedBlocks) : Prop :=
  match l with
  | [] => True
  | r :: rest =>
      match rest with
      | [] => True
      | r' :: _ => fst r < fst r'
      end /\ ascending rest
  end.

(** *** A concrete chain for the examples

    Canonical blocks 95..100 with hashes [0xc95] .. [0xc100]. *)
Definition canonical : list Block :=
  [ mkBlock 95 "0xc95" "0xc94"; mkBlock 96 "0xc96" "0xc95";
    mkBlock 97 "0xc97" "0xc96"; mkBlock 98 "0xc98" "0xc97";
    mkBlock 99 "0xc99" "0xc98"; mkBlock 100 "0xc100" "0xc99" ].

Definition chainApi : Api := fun x =>
  match x with
  | ByHeight n => List.find (fun b => number b =? n) canonical
  | ByHash h => List.find (fun b => (hash b =? h)%string) canonical
  end.

(** The indexer stored blocks 96 and 97 while 95 was final; the finalized
    tip then moved to 100 and none of the stored hashes was reorganised. *)
Definition staleService : Service :=
  mkService [(96, "0xc96"); (97, "0xc97")] (mkBlock 100 "0xc100" "0xc99")
            (Some 95) ∅.

(** Blocks 97..100 were stored; 98, 99 and 100 were later replaced on the
    canonical chain, 97 was not. *)
Definition forkedService : Service :=
  mkService [(97, "0xc97"); (98, "0xf98"); (99, "0xf99"); (100, "0xf100")]
            (mkBlock 100 "0xc100" "0xc99") (Some 96) ∅.

(** Blocks 101 and 102 are stored above the finalized block 100. *)
Definition trackingService : Service :=
  mkService [(101, "0xa101"); (102, "0xa102")] (mkBlock 100 "0xc100" "0xc99")
            (Some 100) ∅.

End Unfinalized.

(** ** Batched JSON-RPC provider *)

Module BatchProvider.
Import Js.

Inductive BatchSizeStatus := testing | determined.

(** The two private fields of [JsonRpcBatchProvider] that [runRequests]
    updates. *)
Record Provider := mkProvider {
  batchSize : Z;
  batchSizeStatus : BatchSizeStatus
}.

(** [private batchSize = 1; private batchSizeStatus = 'testing'] *)
Definition initial : Provider := mkProvider 1 testing.

Record RpcError := mkRpcError { code : Z; message : string }.

(** [interface RpcResult] *)
Record RpcResult := mkRpcResult {
  id : Z;
  result : option string;
  error : option RpcError
}.

(** What [fetchJson] delivers for a batch: the promise rejects, or it
    resolves with a JSON value that is an array of payloads or is not an
    array at all. *)
Inductive Response :=
| Rejected (msg : string)
| NotArray (json : string)
| Array (payloads : list RpcResult).

(** How the promise of one pending request of the batch is settled. *)
Inductive Settled :=
| Resolved (r : option string)
| RejectedPayload (e : RpcError)
| RejectedInvalidResponse
| RejectedError (msg : string).

(** [result.reduce((resultMap, payload) => { resultMap[payload.id] = payload; ... }, {})] *)
Definition resultMap (payloads : list RpcResult) : gmap Z RpcResult :=
  fold_left (fun m payload => <[id payload := payload]> m) payloads ∅.

(** The [batch.forEach] of the success path. The lookup of a request id
    that has no payload yields [undefined], and reading [.error] of it
    raises a [TypeError]: the requests before it are already settled, the
    remaining ones are returned for the [catch] handler. *)
Fixpoint feed (m : gmap Z RpcResult) (batch : list Z)
  : list Settled * option (list Z) :=
  match batch with
  | [] => ([], None)
  | rid :: rest =>
      match m !! rid with
      | None => ([], Some batch)
      | Some payload =>
          let settled :=
            match error payload with
            | Some e => RejectedPayload e
            | None => Resolved (result payload)
            end in
          let '(done, pending) := feed m rest in
          (settled :: done, pending)
      end
  end.

(** The [.catch] handler: downgrade while testing, then reject what is
    still pending (rejecting a settled promise has no effect). *)
Definition onError (p : Provider) (msg : string) (pending : list Z)
  : Provider * list Settled :=
  let p' :=
    match batchSizeStatus p with
    | testing => mkProvider (batchSize p - 1) determined
    | determined => p
    end in
  (p', map (fun _ => RejectedError msg) pending).

(** [runRequests] for a batch of request ids and the answer of the
    endpoint: the provider afterwards and the settlement of every request,
    in batch order. *)
Definition runRequests (p : Provider) (batch : list Z) (r : Response)
  : Provider * list Settled :=
  match r with
  | Rejected msg => onError p msg batch
  | NotArray _ => (p, map (fun _ => RejectedInvalidResponse) batch)
  | Array payloads =>
      let p1 :=
        match batchSizeStatus p with
        | testing => mkProvider (batchSize p + 1) (batchSizeStatus p)
        | determined => p
        end in
      match feed (resultMap payloads) batch with
      | (done, None) => (p1, done)
      | (done, Some pending) =>
          let '(p2, rejected) := onError p1 "TypeError" pending in
          (p2, done ++ rejected)
      end
  end.





Definition okPayload (n : Z) : RpcResult := mkRpcResult n (Some "0x10") None.

End BatchProvider.

(** ** Dictionary v1: the query window *)

Module DictV1.
Import Js.

(** [MetaData] of a v1 dictionary, as far as the window needs it. *)
Record DictionaryV1Metadata := mkMetadata {
  lastProcessedHeight : Z;
  genesisHash : string
}.

Record Dictionary := mkDictionary {
  dictionaryQuerySize : Z;               (* nodeConfig.dictionaryQuerySize *)
  _metadata : option DictionaryV1Metadata
}.

(** [private get metadata()] *)
Definition metadata (d : Dictionary) : Outcome DictionaryV1Metadata :=
  match _metadata d with
  | None => Throw "dictionary _metadata haven't init yet"
  | Some m => Return m
  end.

(** [Math.min] of three numbers, left to right. *)
Definition Math_min3 (a b c : Z) : Z := Z.min (Z.min a b) c.

Definition getQueryEndBlock (d : Dictionary) (startBlockHeight apiFinalizedHeight : Z)
  : Outcome Z :=
  m <- metadata d ;;
  Return (Math_min3 (startBlockHeight + dictionaryQuerySize d)
                    apiFinalizedHeight
                    (lastProcessedHeight m)).

(** The least of three numbers, stated without reference to [Z.min]. *)
Definition least_of (r a b c : Z) : Prop :=
  r <= a /\ r <= b /\ r <= c /\ (r = a \/ r = b \/ r = c).

End DictV1.

(** ** Dictionary v2: query entries built from handler filters *)

Module DictV2.
Import Js.

(** [EthereumHandlerKind], plus the kinds of custom data sources, which the
    [switch] sends to its empty [default]. *)
Inductive EthereumHandlerKind := Block | Call | Event | Custom (k : string).

(** The [to] property of a transaction filter: absent, [null], or an
    address. *)
Inductive ToField := ToUndefined | ToNull | ToAddress (a : string).

(** A handler filter is one object that the code casts to the filter type
    of the handler kind; it is modelled with the properties of all three. *)
Record Filter := mkFilter {
  from : option string;
  to : ToField;
  function : option string;
  topics : option (list (option string));
  modulo : option Z
}.

Record Handler := mkHandler {
  handler : string;
  kind : EthereumHandlerKind;
  filter : option Filter
}.

(** [SubqlEthereumProcessorOptions] *)
Record Options := mkOptions { abi : option string; address : option string }.

(** [GroupedEthereumProjectDs], with [mapping.handlers] flattened. *)
Record DataSource := mkDataSource {
  options : option Options;
  groupedOptions : option (list Options);
  handlers : list Handler
}.

(** [EthDictionaryTxConditions]: a missing key is [None]. An element of
    [to] is an address or [null]. *)
Record TxConditions := mkTx {
  tx_to : option (list (option string));
  tx_from : option (list string);
  tx_function : option (list string)
}.

(** [EthDictionaryLogConditions] *)
Record LogConditions := mkLog {
  log_address : option (list string);
  topics0 : option (list string);
  topics1 : option (list string);
  topics2 : option (list string);
  topics3 : option (list string)
}.

(** [EthDictionaryV2QueryEntry] *)
Record QueryEntry := mkEntry {
  logs : option (list LogConditions);
  transactions : option (list TxConditions)
}.

(** The argument of [extractOptionAddresses]: the options of one data
    source (possibly [undefined]) or the array of grouped options. *)
Inductive DsOptions :=
| Single (o : option Options)
| Grouped (l : list Options).

Definition getTopics (i : nat) (c : LogConditions) : option (list string) :=
  match i with
  | 0%nat => topics0 c
  | 1%nat => topics1 c
  | 2%nat => topics2 c
  | _ => topics3 c
  end.

Definition setTopics (i : nat) (v : list string) (c : LogConditions) : LogConditions :=
  match i with
  | 0%nat => mkLog (log_address c) (Some v) (topics1 c) (topics2 c) (topics3 c)
  | 1%nat => mkLog (log_address c) (topics0 c) (Some v) (topics2 c) (topics3 c)
  | 2%nat => mkLog (log_address c) (topics0 c) (topics1 c) (Some v) (topics3 c)
  | _ => mkLog (log_address c) (topics0 c) (topics1 c) (topics2 c) (Some v)
  end.

Section Builder.

(** [yargsOptions.argv['query-address-limit']] *)
Variable queryAddressLimit : nat.
(** [functionToSighash] and [eventToTopic] of utils/string: the selector
    of a function signature and the topic hash of an event signature. *)
Variable functionToSighash : string -> string.
Variable eventToTopic : string -> string.

(** Each function returns its value together with the warnings it logs. *)
Definition extractOptionAddresses (dsOptions : DsOptions) : list string * list string :=
  match dsOptions with
  | Grouped l =>
      let addresses := omap (fun o =>
          match address o with
          | Some a => if truthy a then Some a else None
          | None => None
          end) l in
      let warn :=
        if (queryAddressLimit <? length addresses)%nat
        then ["Addresses length is exceeding limit"] else [] in
      if (negb (length addresses =? 0)%nat && (length addresses <=? queryAddressLimit)%nat)%bool
      then (addresses, warn) else ([], warn)
  | Single o =>
      match o with
      | Some opts =>
          if truthy_opt (address opts)
          then ([toLowerCase (default "" (address opts))], [])
          else ([], [])
      | None => ([], [])
      end
  end.

Definition toIsSet (f : Filter) : bool :=
  match to f with
  | ToUndefined => false
  | ToNull => true
  | ToAddress a => truthy a
  end.

Definition toIsUndefined (f : Filter) : bool :=
  match to f with ToUndefined => true | _ => false end.

(** [x !== undefined] for an optional property. *)
Definition defined {A} (o : option A) : bool :=
  match o with Some _ => true | None => false end.

Definition nonEmpty {A} (l : list A) : option (list A) :=
  match l with [] => None | _ => Some l end.

Definition callFilterToDictionaryCondition (f : Filter) (dsOptions : option Options)
  : TxConditions * list string :=
  let fromArray := if truthy_opt (from f) then [toLowerCase (default "" (from f))] else [] in
  let '(optionsAddresses, w0) := extractOptionAddresses (Single dsOptions) in
  let '(toArray, w1) :=
    if negb (truthy_array optionsAddresses) then
      match to f with
      | ToAddress a => if truthy a then ([Some (toLowerCase a)], []) else ([], [])
      | ToNull => ([None], [])
      | ToUndefined => ([], [])
      end
    else if (truthy_array optionsAddresses && toIsSet f)%bool then
      ([], ["TransactionFilter 'to' conflict with 'address' in data source options"])
    else ([], []) in
  let funcArray :=
    if truthy_opt (function f) then [functionToSighash (default "" (function f))] else [] in
  (mkTx (nonEmpty toArray) (nonEmpty fromArray) (nonEmpty funcArray), w0 ++ w1).

(** One round of the loop over [filter.topics]. *)
Definition addTopic (c : LogConditions) (it : nat * option string) : LogConditions :=
  let '(i, topic) := it in
  if negb (truthy_opt topic) then c
  else
    let current := default [] (getTopics i c) in
    if (default "" topic =? "!null")%string then setTopics i [] c
    else setTopics i (current ++ [eventToTopic (default "" topic)]) c.

Definition eventFilterToDictionaryCondition (f : Filter) (dsOptions : DsOptions)
  : LogConditions * list string :=
  let '(addresses, w) := extractOptionAddresses dsOptions in
  let c0 := mkLog (Some addresses) None None None None in
  match topics f with
  | Some ts => (fold_left addTopic (imap (fun i t => (i, t)) (take 4 ts)) c0, w)
  | None => (c0, w)
  end.

(** What one handler does to the accumulated conditions: it ends the
    whole construction with the conditions accumulated so far, or it
    passes on the (possibly extended) conditions. *)
Inductive HandlerStep :=
| ReturnNow
| Next (ls : list LogConditions) (txs : list TxConditions).

Definition handlerStep (ds : DataSource) (h : Handler)
  (ls : list LogConditions) (txs : list TxConditions) : HandlerStep :=
  match filter h with
  | None => ReturnNow
  | Some f =>
      match kind h with
      | Block => ReturnNow
      | Call =>
          if (defined (from f) || negb (toIsUndefined f)
              || truthy_opt (function f))%bool
          then Next ls (txs ++ [fst (callFilterToDictionaryCondition f (options ds))])
          else Next ls txs
      | Event =>
          match groupedOptions ds with
          | Some g => Next (ls ++ [fst (eventFilterToDictionaryCondition f (Grouped g))]) txs
          | None =>
              if (match options ds with
                  | Some o => truthy_opt (address o)
                  | None => false
                  end || defined (topics f))%bool
              then Next (ls ++ [fst (eventFilterToDictionaryCondition f (Single (options ds)))]) txs
              else Next ls txs
          end
      | Custom _ => Next ls txs
      end
  end.

(** The nested [for] loops, as one recursion over the data sources and
    the handlers still to visit in the current one. An early [return]
    hands back the accumulator as it is, with both keys present. *)
Fixpoint visitHandlers (ds : DataSource) (hs : list Handler)
  (ls : list LogConditions) (txs : list TxConditions)
  : QueryEntry + (list LogConditions * list TxConditions) :=
  match hs with
  | [] => inr (ls, txs)
  | h :: rest =>
      match handlerStep ds h ls txs with
      | ReturnNow => inl (mkEntry (Some ls) (Some txs))
      | Next ls' txs' => visitHandlers ds rest ls' txs'
      end
  end.

Fixpoint visitDataSources (dss : list DataSource)
  (ls : list LogConditions) (txs : list TxConditions) : QueryEntry :=
  match dss with
  | [] =>
      (* [delete dictionaryConditions.logs] / [.transactions] when empty *)
      mkEntry (nonEmpty ls) (nonEmpty txs)
  | ds :: rest =>
      match visitHandlers ds (handlers ds) ls txs with
      | inl entry => entry
      | inr (ls', txs') => visitDataSources rest ls' txs'
      end
  end.

Definition buildDictionaryV2QueryEntry (dataSources : list DataSource) : QueryEntry :=
  visitDataSources dataSources [] [].

End Builder.

(** A query entry with no log condition and no transaction condition. *)
Definition isEmptyEntry (e : QueryEntry) : Prop :=
  default [] (logs e) = [] /\ default [] (transactions e) = [].

(** *** The [to] condition as the specification words it

    With [options.address] the address is the [to] condition; without it the
    filter's [to] is, lowercased, or an explicit [null]. *)
Definition to_condition_spec (f : Filter) (dsOptions : option Options)
  : option (list (option string)) :=
  match dsOptions with
  | Some (mkOptions _ (Some a)) => Some [Some (toLowerCase a)]
  | _ =>
      match to f with
      | ToAddress a => Some [Some (toLowerCase a)]
      | ToNull => Some [None]
      | ToUndefined => None
      end
  end.

(** *** Inputs of the examples *)

(** The hashes that the repository's tests expect for the signatures they
    use; any other signature is left as it is. *)
Definition testSighash (s : string) : string :=
  if (s =? "setminimumStakingAmount(uint256 amount)")%string then "0x7ef9ea98" else s.

Definition testTopic (s : string) : string :=
  if (s =? "Transfer(address, address, uint256)")%string
  then "0xddf252ad1be2c89b69c2b068fc378daa952ba7f163c4a11628f55a4df523b3ef" else s.

Definition erc20Options : Options :=
  mkOptions (Some "erc20") (Some "0x7ceB23fD6bC0adD59E62ac25578270cFf1b9f619").

Definition transferFilter : Filter :=
  mkFilter None ToUndefined None (Some [Some "Transfer(address, address, uint256)"]) None.

Definition stakingFilter : Filter :=
  mkFilter (Some "mockAddress") ToUndefined
           (Some "setminimumStakingAmount(uint256 amount)") None None.

(** The data source of the test "should unique QueryEntry for duplicate
    dataSources". *)
Definition duplicateDs : DataSource :=
  mkDataSource (Some erc20Options) None
    [ mkHandler "handleLog" Event (Some transferFilter);
      mkHandler "handleLogSame" Event (Some transferFilter);
      mkHandler "handleTx" Call (Some stakingFilter);
      mkHandler "handleTxSame" Call (Some stakingFilter) ].

(** A call handler followed by a block handler that runs every fifth
    block. *)
Definition callThenBlockDs : DataSource :=
  mkDataSource (Some erc20Options) None
    [ mkHandler "handleTx" Call (Some stakingFilter);
      mkHandler "handleBlock" Block
                (Some (mkFilter None ToUndefined None None (Some 5))) ].

End DictV2.

(** ** The HTTP attempt loop of [_fetchData] *)

Module Web.
Import Js.

Inductive Method := GET | POST.

(** [GetUrlResponse] with the two headers the loop reads. *)
Record GetUrlResponse := mkResponse {
  statusCode : Z;
  location : option string;      (* headers.location *)
  retryAfter : option string;    (* headers['retry-after'] *)
  body : string
}.

(** [await getUrl(url, options)]: a response, or a thrown error that may
    carry a response. *)
Inductive GetUrlResult :=
| Responded (r : GetUrlResponse)
| Failed (response : option GetUrlResponse).

(** What [processFunc] does with a body: it yields a value, or throws an
    error that asks for a throttled retry, or throws another error. *)
Inductive Processed (T : Type) :=
| Value (v : T)
| ThrottleRetry
| ProcessError.
Arguments Value {T} v.
Arguments ThrottleRetry {T}.
Arguments ProcessError {T}.

(** The value of the promise: the processed value, the raw body ([null]
    after an accepted 304) when there is no [processFunc] or it failed, or
    [undefined]. *)
Inductive Fetched (T : Type) :=
| Result (v : T)
| RawBody (b : option string)
| ResolvedUndefined.
Arguments Result {T} v.
Arguments RawBody {T} b.
Arguments ResolvedUndefined {T}.

(** One pass through the body of the [for] loop. *)
Inductive Iteration (T : Type) :=
| Redirect (url : string)            (* [url = location; continue] *)
| Retry                              (* [continue] after a stall *)
| Finish (o : Outcome (Fetched T)).
Arguments Redirect {T} url.
Arguments Retry {T}.
Arguments Finish {T} o.

(** [assert(check, message, code, info)] as web.ts imports it from
    [ethers/lib.commonjs/utils]: it throws an error made from [message]
    when [check] is falsy, and returns [undefined] otherwise. *)
Definition assert (check : bool) (message : string) : Outcome unit :=
  if check then Return tt else Throw message.

(** Every call of [assert] in web.ts passes the object literal that
    describes the failure as its first argument, in the place of [check].
    An object is truthy whatever it holds. *)
Definition truthy_object : bool := true.

(** A statement [m;] followed by the rest of the loop body. *)
Definition andThen {T} (m : Outcome unit) (rest : Iteration T) : Iteration T :=
  match m with
  | Return _ => rest
  | Throw e => Finish (Throw e)
  | Exit c => Finish (Exit c)
  | OutOfFuel => Finish OutOfFuel
  end.

Section FetchData.
Context {T : Type}.

(** The endpoint: the answer to the request sent on a given attempt to a
    given URL. *)
Variable getUrl : nat -> string -> GetUrlResult.
(** [options.method]: GET without a body, POST with one. *)
Variable method : Method.
Variable attemptLimit : nat.
Variable throttleCallback : option (nat -> string -> bool).
Variable errorPassThrough : bool.
Variable allow304 : bool.
Variable processFunc : option (option string -> GetUrlResponse -> Processed T).

Definition isGET : bool := match method with GET => true | POST => false end.

Definition isRedirectStatus (r : GetUrlResponse) : bool :=
  ((statusCode r =? 301) || (statusCode r =? 302))%bool.

Definition tryAgain (attempt : nat) (url : string) : bool :=
  match throttleCallback with
  | Some cb => cb attempt url
  | None => true
  end.

(** The end of the loop body: [runningTimeout.cancel(); return body]. *)
Definition returnBody (body' : option string) : Iteration T :=
  Finish (Return (RawBody body')).

(** The part of the loop body after the [try] block. *)
Definition handleResponse (attempt : nat) (url : string) (response : GetUrlResponse)
  : Iteration T :=
  let not_modified := (allow304 && (statusCode response =? 304))%bool in
  let body' := if not_modified then None else Some (body response) in
  let processed :=
    match processFunc with
    | Some f =>
        match f body' response with
        | Value v => Finish (Return (Result v))
        | ThrottleRetry =>
            if ((attempt <? attemptLimit)%nat && tryAgain attempt url)%bool then Retry
            else andThen (assert truthy_object "processing response error")
                         (returnBody body')
        | ProcessError =>
            andThen (assert truthy_object "processing response error")
                    (returnBody body')
        end
    | None => returnBody body'
    end in
  if (negb not_modified && negb errorPassThrough
      && ((statusCode response <? 200) || (statusCode response >=? 300)))%bool
  then andThen (assert truthy_object "bad response") processed
  else processed.

Definition iteration (attempt : nat) (url : string) : Iteration T :=
  match getUrl attempt url with
  | Responded response =>
      if isRedirectStatus response then
        let loc := default "" (location response) in
        if (isGET && String.prefix "https:" loc)%bool then Redirect loc
        else handleResponse attempt url response
      else if statusCode response =? 429 then
        if (S attempt =? attemptLimit)%nat then
          (* [throw err] with the response attached, caught below *)
          handleResponse attempt url response
        else if tryAgain attempt url then Retry
        else handleResponse attempt url response
      else handleResponse attempt url response
  | Failed (Some response) => handleResponse attempt url response
  | Failed None =>
      (* [response == null]: the assert, then [response.body] raises *)
      andThen (assert truthy_object "missing response") (Finish (Throw "TypeError"))
  end.

(** The [for] loop, with [remaining = attemptLimit - attempt], and the
    [return assert(...)] after it. Next to the outcome it lists the
    locations that were followed, in order. *)
Fixpoint attempts (remaining attempt : nat) (url : string)
  : Outcome (Fetched T) * list string :=
  match remaining with
  | O => (bind (assert truthy_object "failed response") (fun _ => Return ResolvedUndefined),
          [])
  | S n =>
      match iteration attempt url with
      | Redirect loc =>
          let '(o, followed) := attempts n (S attempt) loc in (o, loc :: followed)
      | Retry => attempts n (S attempt) url
      | Finish o => (o, [])
      end
  end.

Definition runningFetch (url : string) : Outcome (Fetched T) * list string :=
  attempts attemptLimit 0%nat url.

Definition redirectsFollowed (url : string) : nat := length (snd (runningFetch url)).

End FetchData.

(** *** An endpoint that moved twice

    [http://a] redirects to [https://b], which redirects to [https://c],
    which serves the document. *)
Definition movedTwice : nat -> string -> GetUrlResult := fun _ url =>
  if (url =? "http://a")%string then Responded (mkResponse 302 (Some "https://b") None "")
  else if (url =? "https://b")%string then Responded (mkResponse 301 (Some "https://c") None "")
  else Responded (mkResponse 200 None None "document").

End Web.

(** ** ABI decoding of logs and transactions *)

Module Abi.
Import Js.

(** Decoded arguments (ethers' [Result]). *)
Definition Args := list string.

Record EthereumLog := mkLog {
  log_address : string;
  log_topics : list string;
  log_data : string;
  log_args : option Args
}.

Record EthereumTransaction := mkTransaction {
  tx_hash : string;
  tx_input : string;
  tx_args : option Args
}.

(** [{ ...log, args }] and [{ ...transaction, args }] *)
Definition withLogArgs (l : EthereumLog) (a : Args) : EthereumLog :=
  mkLog (log_address l) (log_topics l) (log_data l) (Some a).

Definition withTxArgs (t : EthereumTransaction) (a : Args) : EthereumTransaction :=
  mkTransaction (tx_hash t) (tx_input t) (Some a).

(** An ethers [Interface]: each method returns or throws ([None]). *)
Record Interface := mkInterface {
  iface_parseLog : EthereumLog -> option Args;
  iface_getFunction : string -> option string;
  iface_decodeFunctionData : string -> string -> option Args
}.

Record DsOptions := mkDsOptions { abi : option string; address : option string }.

(** [RuntimeDataSourceV0_2_0]: [assets] as [Object.entries] lists it, a
    name with the file it refers to. *)
Record DataSource := mkDataSource {
  options : option DsOptions;
  assets : option (list (string * string))
}.

Section Parsing.

(** [fs.promises.readFile(file)]; [None] when the read fails. *)
Variable readFile : string -> option string.
(** [JSON.parse], the unwrapping of an artifact, and [new Interface];
    [None] when any of them throws. *)
Variable newInterface : string -> option Interface.
(** [hexDataSlice(data, 0, 4)]; [None] when the data is not hex. *)
Variable hexDataSlice4 : string -> option string.

Fixpoint loadEntries (entries : list (string * string)) (res : gmap string string)
  : Outcome (gmap string string) :=
  match entries with
  | [] => Return res
  | (name, file) :: rest =>
      match readFile file with
      | Some content => loadEntries rest (<[name := content]> res)
      | None => Throw "Failed to load datasource asset"
      end
  end.

Definition loadAssets (ds : DataSource) : Outcome (gmap string string) :=
  match assets ds with
  | None => Return ∅
  | Some entries => loadEntries entries ∅
  end.

(** [buildInterface] reads and fills the process-wide cache
    [contractInterfaces], which is threaded through. *)
Definition buildInterface (cache : gmap string Interface) (abiName : string)
  (loaded : gmap string string) : Outcome Interface * gmap string Interface :=
  match loaded !! abiName with
  | Some content =>
      if truthy content then
        match cache !! abiName with
        | Some iface => (Return iface, cache)
        | None =>
            match newInterface content with
            | Some iface => (Return iface, <[abiName := iface]> cache)
            | None => (Throw "ABI is invalid", cache)
            end
        end
      else (Throw "ABI not referenced in assets", cache)
  | None => (Throw "ABI not referenced in assets", cache)
  end.

(** [ds?.options?.abi] *)
Definition abiOf (ds : option DataSource) : option string :=
  match ds with
  | Some d => match options d with Some o => abi o | None => None end
  | None => None
  end.

Definition ofOption {A} (o : option A) (msg : string) : Outcome A :=
  match o with Some a => Return a | None => Throw msg end.

(** The body of the [try] block of [parseLog]. *)
Definition parseLog_try (cache : gmap string Interface) (log : EthereumLog)
  (ds : option DataSource) : Outcome EthereumLog * gmap string Interface :=
  if negb (truthy_opt (abiOf ds)) then (Return log, cache)
  else
    match ds with
    | None => (Return log, cache)
    | Some d =>
        match loadAssets d with
        | Return loaded =>
            let '(r, cache') := buildInterface cache (default "" (abiOf ds)) loaded in
            (iface <- r ;;
             a <- ofOption (iface_parseLog iface log) "no matching event" ;;
             Return (withLogArgs log a), cache')
        | Throw e => (Throw e, cache)
        | Exit c => (Exit c, cache)
        | OutOfFuel => (OutOfFuel, cache)
        end
    end.

Definition parseLog (cache : gmap string Interface) (log : EthereumLog)
  (ds : option DataSource) : Outcome EthereumLog * gmap string Interface :=
  let '(r, cache') := parseLog_try cache log ds in
  (try_catch r (fun _ => Return log), cache').

(** The body of the [try] block of [parseTransaction]. *)
Definition parseTransaction_try (cache : gmap string Interface)
  (transaction : EthereumTransaction) (ds : option DataSource)
  : Outcome EthereumTransaction * gmap string Interface :=
  if negb (truthy_opt (abiOf ds)) then (Return transaction, cache)
  else
    match ds with
    | None => (Return transaction, cache)
    | Some d =>
        match loadAssets d with
        | Return loaded =>
            let '(r, cache') := buildInterface cache (default "" (abiOf ds)) loaded in
            (iface <- r ;;
             selector <- ofOption (hexDataSlice4 (tx_input transaction)) "invalid hexlify value" ;;
             func <- ofOption (iface_getFunction iface selector) "no matching function" ;;
             a <- ofOption (iface_decodeFunctionData iface func (tx_input transaction))
                           "data signature does not match function" ;;
             Return (withTxArgs transaction a), cache')
        | Throw e => (Throw e, cache)
        | Exit c => (Exit c, cache)
        | OutOfFuel => (OutOfFuel, cache)
        end
    end.

Definition parseTransaction (cache : gmap string Interface)
  (transaction : EthereumTransaction) (ds : option DataSource)
  : Outcome EthereumTransaction * gmap string Interface :=
  let '(r, cache') := parseTransaction_try cache transaction ds in
  (try_catch r (fun _ => Return transaction), cache').

(** The log was decoded: every step of the [try] block went through and
    the interface produced [a]. *)
Definition decodedLog (cache : gmap string Interface) (log : EthereumLog)
  (ds : option DataSource) (a : Args) : Prop :=
  exists d name loaded iface,
    ds = Some d /\ abiOf ds = Some name /\ loadAssets d = Return loaded /\
    fst (buildInterface cache name loaded) = Return iface /\
    iface_parseLog iface log = Some a.

Definition decodedTransaction (cache : gmap string Interface)
  (transaction : EthereumTransaction) (ds : option DataSource) (a : Args) : Prop :=
  exists d name loaded iface selector func,
    ds = Some d /\ abiOf ds = Some name /\ loadAssets d = Return loaded /\
    fst (buildInterface cache name loaded) = Return iface /\
    hexDataSlice4 (tx_input transaction) = Some selector /\
    iface_getFunction iface selector = Some func /\
    iface_decodeFunctionData iface func (tx_input transaction) = Some a.

End Parsing.

(** *** Inputs of the examples

    One ABI file on disk, whose interface knows the ERC-20 transfer event
    and the transfer function. *)
Definition transferTopic : string := "0xddf252ad".
Definition transferSelector : string := "0xa9059cbb".

Definition erc20Interface : Interface :=
  mkInterface
    (fun l => match log_topics l with
              | t :: _ => if (t =? transferTopic)%string
                          then Some ["from"; "to"; "value"] else None
              | [] => None
              end)
    (fun selector => if (selector =? transferSelector)%string then Some "transfer" else None)
    (fun func _ => if (func =? "transfer")%string then Some ["to"; "value"] else None).

Definition disk (file : string) : option string :=
  if (file =? "./abis/erc20.json")%string then Some "[erc20 abi]" else None.

Definition parseAbi (content : string) : option Interface :=
  if (content =? "[erc20 abi]")%string then Some erc20Interface else None.

Definition slice4 (data : string) : option string :=
  if String.prefix "0x" data then Some (String.substring 0 10 data) else None.

Definition erc20Ds : DataSource :=
  mkDataSource (Some (mkDsOptions (Some "erc20") None))
               (Some [("erc20", "./abis/erc20.json")]).

Definition missingFileDs : DataSource :=
  mkDataSource (Some (mkDsOptions (Some "erc20") None))
               (Some [("erc20", "./abis/missing.json")]).

Definition noAbiDs : DataSource := mkDataSource (Some (mkDsOptions None None)) None.

Definition transferLog : EthereumLog := mkLog "0x7ceb" [transferTopic] "0x01" None.
Definition approvalLog : EthereumLog := mkLog "0x7ceb" ["0x8c5be1e5"] "0x01" None.
Definition transferTx : EthereumTransaction :=
  mkTransaction "0xb1b5" "0xa9059cbb0000000000000001" None.

End Abi.

(** ** Unfinalized blocks tracker: invariants *)

Module UnfinalizedInv.
Import Js Unfinalized.

(** Each record is one block above the one before it. *)
Fixpoint consecutive (l : UnfinalizedBlocks) : Prop :=
  match l with
  | [] => True
  | r :: rest =>
      match rest with
      | [] => True
      | r' :: _ => fst r' = fst r + 1
      end /\ consecutive rest
  end.

(** The endpoint serves one chain between the heights [lo] and [hi]: a block
    at every height, and the parent hash of each leads to the block served
    for the height below. *)
Definition consistentChain (api : Api) (lo hi : Z) : Prop :=
  forall n, lo <= n <= hi ->
    exists b, api (ByHeight n) = Some b /\ number b = n /\
      (lo < n ->
       exists p, api (ByHeight (n - 1)) = Some p /\
                 api (ByHash (parentHash b)) = Some p).

(** [registerFinalizedBlock] for each header of a list, in order. *)
Definition registerFinalizedBlocks (headers : list Block) (s : Service) : Service :=
  fold_left (fun s' header => registerFinalizedBlock header s') headers s.

End UnfinalizedInv.

(** ** Batched JSON-RPC provider: the request queue and the size probe *)

Module BatchQueue.
Import Js.

(** A JSON-RPC request as [send] builds it. *)
Record Request := mkRequest { method : string; params : list string; id : Z }.

(** The queue fields of [JsonRpcBatchProvider]. [_pendingBatch] is [null]
    ([None]) or an array; [_pendingBatchAggregator] tells whether the timer
    that runs the batch is scheduled. *)
Record Queue := mkQueue {
  _nextId : Z;
  _pendingBatch : option (list Request);
  _pendingBatchAggregator : bool
}.

Definition pendingOf (q : Queue) : list Request := default [] (_pendingBatch q).

(** [flush]: with a timer scheduled, cancel it and let [runRequests] take
    the pending batch, which empties the queue; the second component is the
    batch handed to the endpoint. Also what the timer does when it fires. *)
Definition flush (q : Queue) : Queue * option (list Request) :=
  if _pendingBatchAggregator q
  then (mkQueue (_nextId q) None false, _pendingBatch q)
  else (q, None).

(** [send], for the batch size the provider has at that moment. *)
Definition send (batchSize : Z) (m : string) (ps : list string) (q : Queue)
  : Queue * option (list Request) :=
  let request := mkRequest m ps (_nextId q) in
  let pending := pendingOf q ++ [request] in
  let q1 := mkQueue (_nextId q + 1) (Some pending) true in
  if Z.of_nat (length pending) >? batchSize then flush q1 else (q1, None).

Inductive Event :=
| Send (batchSize : Z) (m : string) (ps : list string)
| TimerFires.

Definition step (q : Queue) (e : Event) : Queue * option (list Request) :=
  match e with
  | Send batchSize m ps => send batchSize m ps q
  | TimerFires => flush q
  end.

(** A run of events: the queue at the end and the batches that went out. *)
Fixpoint run (events : list Event) (q : Queue) : Queue * list (list Request) :=
  match events with
  | [] => (q, [])
  | e :: rest =>
      let '(q1, out) := step q e in
      let '(q2, batches) := run rest q1 in
      (q2, match out with Some b => b :: batches | None => batches end)
  end.

(** The requests that a run of events issues, numbered from [next]. *)
Fixpoint issued (events : list Event) (next : Z) : list Request :=
  match events with
  | [] => []
  | Send _ m ps :: rest => mkRequest m ps next :: issued rest (next + 1)
  | TimerFires :: rest => issued rest next
  end.

(** A timer is scheduled exactly when requests are pending. *)
Definition wellFormed (q : Queue) : Prop :=
  (_pendingBatchAggregator q = true /\ exists r b, _pendingBatch q = Some (r :: b)) \/
  (_pendingBatchAggregator q = false /\ _pendingBatch q = None).

(** The queue of a new provider. *)
Definition emptyQueue (next : Z) : Queue := mkQueue next None false.

(** [determineBatchSize]: [fetch size] is the endpoint's answer to the probe
    of [size] requests. [remaining] counts the sizes still to try, up to 10. *)
Fixpoint probeFrom (fetch : nat -> BatchProvider.Response) (remaining size : nat)
  (p : BatchProvider.Provider) : BatchProvider.Provider :=
  match remaining with
  | O => p
  | S n =>
      match fetch size with
      | BatchProvider.Array payloads =>
          if (length payloads =? size)%nat
          then probeFrom fetch n (S size)
                 (BatchProvider.mkProvider (Z.of_nat size) (BatchProvider.batchSizeStatus p))
          else p
      | _ => p
      end
  end.

Definition determineBatchSize (fetch : nat -> BatchProvider.Response)
  (p : BatchProvider.Provider) : BatchProvider.Provider :=
  probeFrom fetch 10 1 p.

(** The probe of [size] requests is answered by an array of that length. *)
Definition probeOk (fetch : nat -> BatchProvider.Response) (size : nat) : Prop :=
  exists payloads, fetch size = BatchProvider.Array payloads /\ length payloads = size.

(** An endpoint that accepts batches of up to three requests. *)
Definition upToThree (size : nat) : BatchProvider.Response :=
  if (size <=? 3)%nat
  then BatchProvider.Array (map (fun i => BatchProvider.okPayload (Z.of_nat i)) (seq 0 size))
  else BatchProvider.Rejected "batch too large".

End BatchQueue.

(** ** Chain API: the finalized height and its fallback *)

Module ChainApi.
Import Js.

(** The provider: [(await client.getBlock(tag)).number] for the call with
    the given running number; [None] when the call is rejected. *)
Definition Client := nat -> string -> option Z.

(** [supportsFinalization], and the number of calls made so far. *)
Record State := mkState { supportsFinalization : bool; calls : nat }.

Definition getBlockNumber (client : Client) (tag : string) (st : State)
  : Outcome Z * State :=
  (match client (calls st) tag with
   | Some n => Return n
   | None => Throw "getBlock failed"
   end,
   mkState (supportsFinalization st) (S (calls st))).

Definition getBestBlockHeight (client : Client) (st : State) : Outcome Z * State :=
  getBlockNumber client (if supportsFinalization st then "safe" else "latest") st.

(** The [try] block of [getFinalizedBlockHeight]. *)
Definition finalizedAttempt (client : Client) (st : State) : Outcome Z * State :=
  if supportsFinalization st then getBlockNumber client "finalized" st
  else
    let '(r, st') := getBestBlockHeight client st in
    (best <- r ;; Return (best - 15), st').

(** [getFinalizedBlockHeight]; the [catch] clears the flag and calls the
    function again, which the fuel bounds. *)
Fixpoint getFinalizedBlockHeight (client : Client) (fuel : nat) (st : State)
  : Outcome Z * State :=
  match finalizedAttempt client st with
  | (Throw _, st') =>
      let st'' := mkState false (calls st') in
      match fuel with
      | O => (OutOfFuel, st'')
      | S fuel' => getFinalizedBlockHeight client fuel' st''
      end
  | done => done
  end.

(** A chain from before the merge: the [finalized] and [safe] tags are
    rejected, [latest] is at block 1000. *)
Definition preMerge : Client := fun _ tag =>
  if (tag =? "latest")%string then Some 1000 else None.

End ChainApi.

(** ** API service: fetching a batch with retries *)

Module ApiService.
Import Js.

Definition MAX_RECONNECT_ATTEMPTS : nat := 5.

Section Fetch.
Context {B : Type}.

(** [this.api.fetchBlocks(batch)] on the connection that the pool hands out
    for the call with the given running number; [None] when it throws. *)
Variable fetch : nat -> list Z -> option B.

(** The [while] loop of [fetchBlocksFromFirstAvailableEndpoint], with
    [attemptsLeft = MAX_RECONNECT_ATTEMPTS - reconnectAttempts]; next to the
    outcome, the number of calls made so far. *)
Fixpoint retryLoop (attemptsLeft : nat) (calls : nat) (batch : list Z)
  : Outcome B * nat :=
  match attemptsLeft with
  | O => (Throw "Maximum number of retries (5) reached.", calls)
  | S n =>
      match fetch calls batch with
      | Some blocks => (Return blocks, S calls)
      | None => retryLoop n (S calls) batch
      end
  end.

Definition fetchBlocksFromFirstAvailableEndpoint (calls : nat) (batch : list Z)
  : Outcome B * nat :=
  retryLoop MAX_RECONNECT_ATTEMPTS calls batch.

Definition fetchBlocks (calls : nat) (bufferBlocks : list Z) : Outcome B * nat :=
  match fetch calls bufferBlocks with
  | Some blocks => (Return blocks, S calls)
  | None => fetchBlocksFromFirstAvailableEndpoint (S calls) bufferBlocks
  end.

End Fetch.

(** An endpoint that fails twice and then serves the heights it is asked. *)
Definition flaky (call : nat) (batch : list Z) : option (list Z) :=
  if (call <? 2)%nat then None else Some batch.

End ApiService.

(** ** Dictionary v1: reading a response *)

Module DictV1Data.
Import Js DictV1.

(** [Number(node.blockHeight)]; [None] is [NaN]. *)
Definition Height := option Z.

(** A number that may be [Infinity]. *)
Inductive Bound := Finite (n : Z) | Infinity.

(** [h <= b] *)
Definition within (b : Bound) (h : Z) : bool :=
  match b with
  | Finite n => h <=? n
  | Infinity => true
  end.

Definition minBound (a b : Bound) : Bound :=
  match a, b with
  | Finite x, Finite y => Finite (Z.min x y)
  | Finite x, Infinity => Finite x
  | Infinity, _ => b
  end.

(** [resp.data] without its [_metadata] key: for every entity the heights of
    its nodes, in the order of the response. An object holds each key once. *)
Definition Data := list (string * list Height).

(** [blockHeightSet.add]: a [Set] keeps the first insertion of a value, and
    holds [NaN] at most once. *)
Definition setAdd (s : list Height) (h : Height) : list Height :=
  if bool_decide (h ∈ s) then s else s ++ [h].

Definition blockHeightSet (data : Data) : list Height :=
  fold_left setAdd (flat_map snd data) [].

(** [Object.values(entityEndBlock)]: the height of the last node of every
    entity that has nodes. *)
Definition entityEndBlock (data : Data) : list Height :=
  omap (fun en => last (snd en)) data.

(** [isNaN(height) ? Infinity : height] *)
Definition orInfinity (h : Height) : Bound :=
  match h with
  | Some n => Finite n
  | None => Infinity
  end.

(** [Math.min(...)], which is [Infinity] for no argument. *)
Definition endBlock (data : Data) : Bound :=
  fold_right minBound Infinity (map orInfinity (entityEndBlock data)).

(** [.filter((block) => block <= endBlock)]; a comparison with [NaN] is
    false. *)
Definition keep (b : Bound) (h : Height) : bool :=
  match h with
  | Some n => within b n
  | None => false
  end.

(** [Array.from(blockHeightSet).filter(...).sort((n1, n2) => n1 - n2)] *)
Definition batchBlocks (data : Data) : list Z :=
  merge_sort Z.le (omap id (List.filter (keep (endBlock data)) (blockHeightSet data))).

(** The fields of [CoreDictionary] that validation and scheduling use. *)
Record Core := mkCore {
  dictionaryEndpoint : option string;
  dictionaryResolver : option string;      (* nodeConfig.dictionaryResolver *)
  metadataValid : option bool;
  _startHeight : option Z
}.

(** [protected get useDictionary()] *)
Definition useDictionary (c : Core) : bool :=
  ((truthy_opt (dictionaryEndpoint c) || truthy_opt (dictionaryResolver c))
   && default false (metadataValid c))%bool.

(** The inner [validate] of [dictionaryValidation]. *)
Definition validate (metaData : option DictionaryV1Metadata) (startBlockHeight : option Z)
  : bool :=
  match metaData with
  | None => false
  | Some m =>
      match startBlockHeight with
      | Some start => negb (lastProcessedHeight m <? start)
      | None => true
      end
  end.

Definition dictionaryValidation (metaData : option DictionaryV1Metadata)
  (startBlockHeight : option Z) (c : Core) : Core * bool :=
  let valid := validate metaData startBlockHeight in
  (mkCore (dictionaryEndpoint c) (dictionaryResolver c) (Some valid) (_startHeight c), valid).

(** [DictionaryResponse<number>] *)
Record DictionaryResponse := mkResponse {
  lastBufferedHeight : Bound;
  batchBlocks_of : list Z
}.

(** [getData] from the arrival of the response on: the metadata and the
    entities of [resp.data], for a query that started at [startBlock]. *)
Definition getData_response (metaData : option DictionaryV1Metadata) (data : Data)
  (startBlock : Z) (c : Core) : Core * option DictionaryResponse :=
  let '(c', valid) := dictionaryValidation metaData (Some startBlock) c in
  if negb valid then (c', None)
  else (c', Some (mkResponse (endBlock data) (batchBlocks data))).

(** [setDictionaryStartHeight] *)
Definition setDictionaryStartHeight (start : option Z) (c : Core) : Core :=
  match _startHeight c with
  | Some _ => c
  | None =>
      mkCore (dictionaryEndpoint c) (dictionaryResolver c) (metadataValid c)
             (Some (default 1 start))
  end.

(** [get startHeight()] *)
Definition startHeight (c : Core) : Outcome Z :=
  match _startHeight c with
  | None => Throw "Dictionary start height is not set"
  | Some h => Return h
  end.

(** The height is reported by some entity of the response. *)
Definition reported (data : Data) (h : Z) : Prop :=
  exists entity nodes, (entity, nodes) ∈ data /\ Some h ∈ nodes.

(** A response with two entities: events up to block 30, calls up to 25. *)
Definition twoEntities : Data :=
  [ ("evmLogs", [Some 10; Some 20; Some 30]);
    ("evmTransactions", [Some 5; Some 20; Some 25]) ].

Definition freshCore : Core := mkCore (Some "https://dict.example") None None None.

End DictV1Data.

(** ** Polling *)

Module Poll.
Import Js.

(** What one call of the polled function settles to: a result, [undefined],
    or a rejection. *)
Inductive Answer (T : Type) :=
| Defined (v : T)
| Undefined
| Fails (e : string).
Arguments Defined {T} v.
Arguments Undefined {T}.
Arguments Fails {T} e.

Section Check.
Context {T : Type}.

(** [func()] for the call with the given running number. *)
Variable func : nat -> Answer T.
(** [options.retryLimit]; [None] when the option is absent. *)
Variable retryLimit : option nat.

(** [attempt > retryLimit]; a comparison with [undefined] is false. *)
Definition limitReached (attempt : nat) : bool :=
  match retryLimit with
  | Some limit => (limit <? attempt)%nat
  | None => false
  end.

(** [check] of [poll], for options without [timeout], [oncePoll] and
    [onceBlock]: the waiting between two calls is not modelled, the fuel
    bounds the number of re-schedulings. Next to the outcome, the number of
    calls of [func] made. *)
Fixpoint check (fuel attempt calls : nat) : Outcome T * nat :=
  match func calls with
  | Defined v => (Return v, S calls)
  | Fails e => (Throw e, S calls)
  | Undefined =>
      if limitReached (S attempt) then (Throw "retry limit reached", S calls)
      else
        match fuel with
        | O => (OutOfFuel, S calls)
        | S fuel' => check fuel' (S attempt) (S calls)
        end
  end.

Definition poll (fuel : nat) : Outcome T * nat := check fuel 0 0.

End Check.

(** A transaction receipt that shows up at the third look. *)
Definition thirdLook (call : nat) : Answer string :=
  if (call <? 2)%nat then Undefined else Defined "receipt".

End Poll.

(** ** Dictionary v2: what a handler contributes *)

Module DictV2Conditions.
Import Js DictV2.

(** A handler that does not end the construction: it has a filter and is
    not a block handler. *)
Definition contributing (h : Handler) : Prop :=
  filter h <> None /\ kind h <> Block.

(** Every handler of every data source is of that kind. *)
Definition allContributing (dataSources : list DataSource) : Prop :=
  Forall (fun ds => Forall contributing (handlers ds)) dataSources.

Definition logsOf (e : QueryEntry) : list LogConditions := default [] (logs e).
Definition transactionsOf (e : QueryEntry) : list TxConditions := default [] (transactions e).

(** What one slot of [filter.topics] asks of the matching topic of a log:
    nothing ([None]) for an empty slot, presence with any value (the empty
    list) for ['!null'], and otherwise the hash of the signature. *)
Definition topicCondition (eventToTopic : string -> string) (slot : option (option string))
  : option (list string) :=
  match slot with
  | Some (Some t) =>
      if truthy t then
        if (t =? "!null")%string then Some [] else Some [eventToTopic t]
      else None
  | _ => None
  end.

(** Two data sources of the repository's ENS test project, cut down to two
    handlers each. *)
Definition registryDs : DataSource :=
  mkDataSource (Some (mkOptions (Some "EnsRegistry")
                                (Some "0x314159265dd8dbb310642f98f50c066173c1259b"))) None
    [ mkHandler "handleTransferOldRegistry" Event
        (Some (mkFilter None ToUndefined None (Some [Some "Transfer(bytes32,address)"]) None));
      mkHandler "handleNewOwnerOldRegistry" Event
        (Some (mkFilter None ToUndefined None
                        (Some [Some "NewOwner(bytes32,bytes32,address)"]) None)) ].

Definition resolverDs : DataSource :=
  mkDataSource (Some (mkOptions (Some "Resolver") None)) None
    [ mkHandler "handleABIChanged" Event
        (Some (mkFilter None ToUndefined None (Some [Some "ABIChanged(bytes32,uint256)"]) None));
      mkHandler "handleSetAddr" Call
        (Some (mkFilter (Some "0xAbC") ToUndefined (Some "setAddr(bytes32,address)") None None)) ].

End DictV2Conditions.

(** * Checked properties *)

(** ** Unfinalized blocks tracker *)

Section UnfinalizedProperties.
Import Js Unfinalized.

Lemma findIndex_Some_lookup (F : Z) (l : UnfinalizedBlocks) (i : nat) :
  findIndex F l = Some i -> exists h, l !! i = Some (F, h).
Proof.
  revert i. induction l as [|[height h0] l IH]; intros i; simpl; [discriminate|].
  destruct (Z.eqb_spec height F) as [->|Hne].
  - intros [= <-]. eauto.
  - destruct (findIndex F l) as [j|]; [|discriminate].
    intros [= <-]. simpl. apply IH. reflexivity.
Qed.

Lemma findIndex_None_absent (F : Z) (l : UnfinalizedBlocks) :
  findIndex F l = None -> Forall (fun r => fst r <> F) l.
Proof.
  induction l as [|[height h0] l IH]; simpl; intros H; [constructor|].
  destruct (Z.eqb_spec height F) as [->|Hne]; [discriminate|].
  destruct (findIndex F l); [discriminate|].
  constructor; [exact Hne | apply IH; reflexivity].
Qed.

Lemma ascending_above (l : UnfinalizedBlocks) (r : Z * string) :
  ascending (r :: l) -> Forall (fun r' => fst r < fst r') l.
Proof.
  revert r. induction l as [|r1 l IH]; intros r; [constructor|].
  intros [Hlt Hasc]. constructor; [exact Hlt|].
  specialize (IH r1 Hasc).
  eapply Forall_impl; [exact IH|]. simpl. intros; lia.
Qed.

Lemma ascending_drop (l : UnfinalizedBlocks) (i : nat) (F : Z) (h : string) :
  ascending l -> l !! i = Some (F, h) -> Forall (fun r => F < fst r) (drop (S i) l).
Proof.
  revert i. induction l as [|r l IH]; intros i Hasc; [discriminate|].
  destruct i as [|i]; simpl.
  - intros [= ->]. rewrite drop_0. apply (ascending_above _ _ Hasc).
  - intros Hl. apply IH; [apply Hasc | exact Hl].
Qed.

(** [removeFinalized] does clear the finalized records when the list is
    ascending and holds a record at exactly the finalized height. *)
Lemma removeFinalized_clears_when_present (s : Service) (F : Z) :
  ascending (unfinalizedBlocks s) ->
  Exists (fun r => fst r = F) (unfinalizedBlocks s) ->
  Forall (fun r => F < fst r) (unfinalizedBlocks (removeFinalized F s)).
Proof.
  intros Hasc Hex. unfold removeFinalized.
  destruct (findIndex F (unfinalizedBlocks s)) as [i|] eqn:Hfi.
  - destruct (findIndex_Some_lookup _ _ _ Hfi) as [h Hl].
    simpl. eapply ascending_drop; eauto.
  - apply findIndex_None_absent in Hfi.
    apply Exists_exists in Hex as [r [Hin Hr]].
    rewrite Forall_forall in Hfi. specialize (Hfi r Hin). contradiction.
Qed.

(** It leaves the list as it is when no record sits at that height. *)
Lemma removeFinalized_noop_when_absent (s : Service) (F : Z) :
  Forall (fun r => fst r <> F) (unfinalizedBlocks s) ->
  removeFinalized F s = s.
Proof.
  intros Hall. unfold removeFinalized.
  destruct (findIndex F (unfinalizedBlocks s)) as [i|] eqn:Hfi; [|reflexivity].
  destruct (findIndex_Some_lookup _ _ _ Hfi) as [h Hl].
  rewrite Forall_forall in Hall.
  apply list_elem_of_lookup_2 in Hl. specialize (Hall _ Hl). simpl in Hall. congruence.
Qed.

(** C1 (evaluated on the code). Blocks 96 and 97 are stored, the finalized
    tip has moved to 100 and nothing was reorganised. Block 98 is processed:
    [processUnfinalizedBlocks] returns null, yet both records, whose
    heights are below the finalized height, are still in the list. *)
Theorem processUnfinalizedBlocks_null_keeps_finalized_records :
  exists s',
    processUnfinalizedBlocks chainApi 200 (Some (98, "0xc98")) staleService
      = Return (s', Null) /\
    finalizedBlockNumber s' = 100 /\
    unfinalizedBlocks s' = [(96, "0xc96"); (97, "0xc97")] /\
    Forall (fun r => fst r <= finalizedBlockNumber s') (unfinalizedBlocks s').
Proof.
  eexists. split; [vm_compute; reflexivity|].
  split; [reflexivity|]. split; [reflexivity|].
  repeat constructor; simpl; unfold finalizedBlockNumber; simpl; lia.
Qed.

(** C2 (evaluated on the code). Blocks 97..100 are stored and 98..100 were
    replaced on the canonical chain. The stored hash of block 97 is the
    canonical one, so the search worded by the specification answers 97;
    the code re-fetches the parent of the finalized header on every round,
    never looks below height 98 and answers [lastCheckedBlockHeight]. *)
Theorem getLastCorrectFinalizedBlock_misses_matching_record :
  hasForked chainApi 200 forkedService = Return true /\
  (97, "0xc97") ∈ unfinalizedBlocks forkedService /\
  hash <$> chainApi (ByHeight 97) = Some "0xc97" /\
  getLastCorrectFinalizedBlock_spec chainApi forkedService = Return (Some 97) /\
  getLastCorrectFinalizedBlock chainApi forkedService
    = Return (lastCheckedBlockHeight forkedService) /\
  lastCheckedBlockHeight forkedService = Some 96.
Proof.
  split; [vm_compute; reflexivity|].
  split; [apply list_elem_of_here|].
  repeat split; vm_compute; reflexivity.
Qed.

(** C3. [registerUnfinalizedBlock]: a height at or below the finalized
    height leaves the service as it is; above it, a height that does not
    follow the last record ends the process with exit code 1; otherwise the
    record is appended and the list written to the metadata store. *)
Theorem registerUnfinalizedBlock_cases (s : Service) (n : Z) (h : string) :
  (n <= finalizedBlockNumber s -> registerUnfinalizedBlock n h s = Return s) /\
  (finalizedBlockNumber s < n ->
   forall lastHeight lastHash,
     last (unfinalizedBlocks s) = Some (lastHeight, lastHash) ->
     lastHeight + 1 <> n ->
     registerUnfinalizedBlock n h s = Exit 1) /\
  (finalizedBlockNumber s < n ->
   (unfinalizedBlocks s = [] \/
    exists lastHash, last (unfinalizedBlocks s) = Some (n - 1, lastHash)) ->
   exists s',
     registerUnfinalizedBlock n h s = Return s' /\
     unfinalizedBlocks s' = unfinalizedBlocks s ++ [(n, h)] /\
     metadataRepo s' = <[METADATA_UNFINALIZED_BLOCKS_KEY :=
                           MBlocks (unfinalizedBlocks s ++ [(n, h)])]> (metadataRepo s) /\
     finalizedHeader s' = finalizedHeader s /\
     lastCheckedBlockHeight s' = lastCheckedBlockHeight s).
Proof.
  unfold registerUnfinalizedBlock. repeat split.
  - intros Hle. apply Z.leb_le in Hle. rewrite Hle. reflexivity.
  - intros Hlt lastHeight lastHash Hlast Hne.
    apply Z.leb_gt in Hlt. rewrite Hlt, Hlast.
    apply Z.eqb_neq in Hne. rewrite Hne. reflexivity.
  - intros Hlt Hcase. apply Z.leb_gt in Hlt. rewrite Hlt.
    destruct Hcase as [Hnil | [lastHash Hlast]].
    + rewrite Hnil. simpl. eexists. repeat split.
    + rewrite Hlast. replace (n - 1 + 1 =? n) with true by (symmetry; apply Z.eqb_eq; lia).
      simpl. eexists. repeat split.
Qed.

Lemma registerUnfinalizedBlock_cases_witness :
  registerUnfinalizedBlock 100 "0xd100" trackingService = Return trackingService /\
  registerUnfinalizedBlock 105 "0xd105" trackingService = Exit 1 /\
  exists s', registerUnfinalizedBlock 103 "0xd103" trackingService = Return s' /\
             unfinalizedBlocks s' = [(101, "0xa101"); (102, "0xa102"); (103, "0xd103")].
Proof.
  split; [|split].
  - apply (proj1 (registerUnfinalizedBlock_cases trackingService 100 "0xd100")).
    vm_compute. discriminate.
  - apply (proj1 (proj2 (registerUnfinalizedBlock_cases trackingService 105 "0xd105"))
             ltac:(reflexivity) 102 "0xa102"); [reflexivity | discriminate].
  - destruct (proj2 (proj2 (registerUnfinalizedBlock_cases trackingService 103 "0xd103"))
                ltac:(reflexivity)
                (or_intror (ex_intro _ "0xa102" eq_refl))) as [s' [H1 [H2 _]]].
    exists s'. split; [exact H1 | exact H2].
Defined.

End UnfinalizedProperties.

(** ** Batched JSON-RPC provider *)

Section BatchProviderProperties.
Import Js BatchProvider.







End BatchProviderProperties.

(** ** Dictionary v2 query entries *)

Section DictV2Properties.
Import Js DictV2.

Variable queryAddressLimit : nat.
Variable functionToSighash : string -> string.
Variable eventToTopic : string -> string.

(** With an address in the options, [extractOptionAddresses] returns it
    lowercased and logs nothing; in every case its result is an array, which
    the caller then tests for truthiness. *)
Lemma extractOptionAddresses_single_address (o : Options) (a : string) :
  address o = Some a -> truthy a = true ->
  extractOptionAddresses queryAddressLimit (Single (Some o)) = ([toLowerCase a], []).
Proof.
  intros Ha Ht. unfold extractOptionAddresses, truthy_opt. rewrite Ha, Ht. reflexivity.
Qed.

Lemma extractOptionAddresses_single_logs_nothing (o : option Options) :
  snd (extractOptionAddresses queryAddressLimit (Single o)) = [].
Proof.
  destruct o as [o|]; simpl; [|reflexivity].
  destruct (truthy_opt (address o)); reflexivity.
Qed.

(** A block handler, and any handler without a filter, ends the construction
    with the conditions gathered before it, whatever they are. *)
Lemma visitHandlers_block_returns_accumulated (ds : DataSource) (h : Handler)
  (rest : list Handler) (ls : list LogConditions) (txs : list TxConditions) :
  kind h = Block \/ filter h = None ->
  visitHandlers queryAddressLimit functionToSighash eventToTopic ds (h :: rest) ls txs
  = inl (mkEntry (Some ls) (Some txs)).
Proof.
  intros Hk. simpl. unfold handlerStep.
  destruct (filter h) as [f|]; [|reflexivity].
  destruct Hk as [-> | Hnone]; [reflexivity | discriminate].
Qed.

(** The [to] key is never written: the branch that would copy [filter.to]
    is guarded by the negated truthiness of an array. *)
Lemma callFilterToDictionaryCondition_no_to (f : Filter) (o : option Options) :
  tx_to (fst (callFilterToDictionaryCondition queryAddressLimit functionToSighash f o)) = None.
Proof.
  unfold callFilterToDictionaryCondition.
  destruct (extractOptionAddresses queryAddressLimit (Single o)) as [addrs w].
  unfold truthy_array. simpl.
  destruct (toIsSet f); reflexivity.
Qed.

(** C6 as stated fails: the data source defines [options.address], the
    filter names a function, and the condition carries no [to], whereas the
    specification's wording makes the address the [to] condition. *)
Lemma callFilterToDictionaryCondition_address_not_used :
  address erc20Options = Some "0x7ceB23fD6bC0adD59E62ac25578270cFf1b9f619" /\
  to_condition_spec stakingFilter (Some erc20Options)
    = Some [Some "0x7ceb23fd6bc0add59e62ac25578270cff1b9f619"] /\
  tx_to (fst (callFilterToDictionaryCondition 100 testSighash stakingFilter (Some erc20Options)))
    = None /\
  tx_to (fst (callFilterToDictionaryCondition 100 testSighash stakingFilter (Some erc20Options)))
    <> to_condition_spec stakingFilter (Some erc20Options).
Proof.
  repeat split; try (vm_compute; reflexivity). vm_compute. discriminate.
Qed.

(** C6, amended. For a data source that defines [options.address]: the
    condition has no [to] key; a filter [to], address or explicit null, is
    ignored and the conflict is logged, and nothing is logged otherwise;
    [from] is lowercased and [function] hashed to its selector. *)
Theorem callFilterToDictionaryCondition_with_address
  (f : Filter) (o : Options) (a : string) :
  address o = Some a -> truthy a = true ->
  callFilterToDictionaryCondition queryAddressLimit functionToSighash f (Some o)
  = (mkTx None
          (if truthy_opt (from f) then Some [toLowerCase (default "" (from f))] else None)
          (if truthy_opt (function f)
           then Some [functionToSighash (default "" (function f))] else None),
     if toIsSet f
     then ["TransactionFilter 'to' conflict with 'address' in data source options"]
     else []).
Proof.
  intros Ha Ht. unfold callFilterToDictionaryCondition.
  rewrite (extractOptionAddresses_single_address o a Ha Ht).
  unfold truthy_array. simpl.
  destruct (toIsSet f), (truthy_opt (from f)), (truthy_opt (function f)); reflexivity.
Qed.

End DictV2Properties.

Section DictV2Examples.
Import Js DictV2.

Lemma callFilterToDictionaryCondition_with_address_witness :
  callFilterToDictionaryCondition 100 testSighash
    (mkFilter (Some "0xAA") (ToAddress "0xBB") (Some "setminimumStakingAmount(uint256 amount)")
              None None)
    (Some erc20Options)
  = (mkTx None (Some ["0xaa"]) (Some ["0x7ef9ea98"]),
     ["TransactionFilter 'to' conflict with 'address' in data source options"]).
Proof.
  apply (callFilterToDictionaryCondition_with_address 100 testSighash
           (mkFilter (Some "0xAA") (ToAddress "0xBB")
                     (Some "setminimumStakingAmount(uint256 amount)") None None)
           erc20Options "0x7ceB23fD6bC0adD59E62ac25578270cFf1b9f619");
    reflexivity.
Defined.

(** The repository's test "Build filter for !null": the fourth topic is
    required to be present, with any value. *)
Example eventFilterToDictionaryCondition_not_null :
  fst (eventFilterToDictionaryCondition 100 testTopic
         (mkFilter None ToUndefined None
            (Some [Some "Transfer(address, address, uint256)"; None; None; Some "!null"]) None)
         (Single (Some erc20Options)))
  = mkLog (Some ["0x7ceb23fd6bc0add59e62ac25578270cff1b9f619"])
          (Some ["0xddf252ad1be2c89b69c2b068fc378daa952ba7f163c4a11628f55a4df523b3ef"])
          None None (Some []).
Proof. vm_compute. reflexivity. Qed.

(** A block handler that is visited first does give the empty entry. *)
Example buildDictionaryV2QueryEntry_block_first :
  buildDictionaryV2QueryEntry 100 testSighash testTopic
    [mkDataSource (Some erc20Options) None (rev (handlers callThenBlockDs))]
  = mkEntry (Some []) (Some []).
Proof. vm_compute. reflexivity. Qed.

(** C5 (evaluated on the code). A call handler with a filter comes before
    a block handler: the early return hands back the conditions gathered so
    far, so the entry still holds the call handler's condition. *)
Theorem buildDictionaryV2QueryEntry_block_after_call :
  Exists (fun h => kind h = Block) (handlers callThenBlockDs) /\
  buildDictionaryV2QueryEntry 100 testSighash testTopic [callThenBlockDs]
    = mkEntry (Some [])
              (Some [mkTx None (Some ["mockaddress"]) (Some ["0x7ef9ea98"])]) /\
  ~ isEmptyEntry (buildDictionaryV2QueryEntry 100 testSighash testTopic [callThenBlockDs]).
Proof.
  split; [apply Exists_cons_tl, Exists_cons_hd; reflexivity|].
  split; [vm_compute; reflexivity|].
  intros [_ H]. vm_compute in H. discriminate.
Qed.

(** C7 (evaluated on the code). On the data source of the repository's
    test for duplicate handlers the entry holds the log condition twice and
    the transaction condition twice. *)
Theorem buildDictionaryV2QueryEntry_keeps_duplicates :
  let c := mkLog (Some ["0x7ceb23fd6bc0add59e62ac25578270cff1b9f619"])
                 (Some ["0xddf252ad1be2c89b69c2b068fc378daa952ba7f163c4a11628f55a4df523b3ef"])
                 None None None in
  let t := mkTx None (Some ["mockaddress"]) (Some ["0x7ef9ea98"]) in
  buildDictionaryV2QueryEntry 100 testSighash testTopic [duplicateDs]
    = mkEntry (Some [c; c]) (Some [t; t]) /\
  ~ NoDup (default [] (logs (buildDictionaryV2QueryEntry 100 testSighash testTopic [duplicateDs]))) /\
  ~ NoDup (default [] (transactions
              (buildDictionaryV2QueryEntry 100 testSighash testTopic [duplicateDs]))).
Proof.
  intros c t.
  assert (H : buildDictionaryV2QueryEntry 100 testSighash testTopic [duplicateDs]
              = mkEntry (Some [c; c]) (Some [t; t])) by (vm_compute; reflexivity).
  split; [exact H|]. rewrite H. simpl.
  split; intros Hnd; inversion Hnd as [|? ? Hnotin _]; subst;
    apply Hnotin; apply list_elem_of_here.
Qed.

End DictV2Examples.

(** ** Dictionary v1 query window *)

Section DictV1Properties.
Import Js DictV1.

(** C8. With the metadata initialised, [getQueryEndBlock] returns the least
    of [start + dictionaryQuerySize], the API's finalized height and the
    dictionary's last processed height. *)
Theorem getQueryEndBlock_min (d : Dictionary) (m : DictionaryV1Metadata) (s f : Z) :
  _metadata d = Some m ->
  exists r,
    getQueryEndBlock d s f = Return r /\
    r = Z.min (s + dictionaryQuerySize d) (Z.min f (lastProcessedHeight m)) /\
    least_of r (s + dictionaryQuerySize d) f (lastProcessedHeight m).
Proof.
  intros Hm. unfold getQueryEndBlock, metadata. rewrite Hm. simpl.
  eexists. split; [reflexivity|]. unfold Math_min3, least_of. split; lia.
Qed.

Lemma getQueryEndBlock_min_witness :
  exists r,
    getQueryEndBlock (mkDictionary 10000 (Some (mkMetadata 5000 "0xgenesis"))) 1000 20000
      = Return r /\
    r = Z.min (1000 + 10000) (Z.min 20000 5000) /\
    least_of r (1000 + 10000) 20000 5000.
Proof.
  apply (getQueryEndBlock_min (mkDictionary 10000 (Some (mkMetadata 5000 "0xgenesis")))
           (mkMetadata 5000 "0xgenesis") 1000 20000).
  reflexivity.
Defined.

End DictV1Properties.

(** ** The HTTP attempt loop *)

Section WebProperties.
Import Js Web.

Context {T : Type}.
Variable getUrl : nat -> string -> GetUrlResult.
Variable method : Method.
Variable attemptLimit : nat.
Variable throttleCallback : option (nat -> string -> bool).
Variable errorPassThrough : bool.
Variable allow304 : bool.
Variable processFunc : option (option string -> GetUrlResponse -> Processed T).

Local Abbreviation handleResponse :=
  (handleResponse attemptLimit throttleCallback errorPassThrough allow304 processFunc).
Local Abbreviation iteration :=
  (iteration getUrl method attemptLimit throttleCallback errorPassThrough allow304 processFunc).
Local Abbreviation attempts :=
  (attempts getUrl method attemptLimit throttleCallback errorPassThrough allow304 processFunc).
Local Abbreviation runningFetch :=
  (runningFetch getUrl method attemptLimit throttleCallback errorPassThrough allow304 processFunc).
Local Abbreviation redirectsFollowed :=
  (redirectsFollowed getUrl method attemptLimit throttleCallback errorPassThrough allow304
                     processFunc).

(** The calls of [assert] in the loop do nothing. *)
Lemma andThen_assert (message : string) (rest : Iteration T) :
  andThen (assert truthy_object message) rest = rest.
Proof. reflexivity. Qed.

(** The code after the [try] block, with the calls of [assert] left out. *)
Lemma handleResponse_eq (attempt : nat) (url : string) (r : GetUrlResponse) :
  handleResponse attempt url r =
  let body' := if (allow304 && (statusCode r =? 304))%bool then None else Some (body r) in
  match processFunc with
  | Some f =>
      match f body' r with
      | Value v => Finish (Return (Result v))
      | ThrottleRetry =>
          if ((attempt <? attemptLimit)%nat && tryAgain throttleCallback attempt url)%bool
          then Retry else Finish (Return (RawBody body'))
      | ProcessError => Finish (Return (RawBody body'))
      end
  | None => Finish (Return (RawBody body'))
  end.
Proof.
  unfold Web.handleResponse, returnBody. rewrite !andThen_assert.
  destruct (negb (allow304 && (statusCode r =? 304)) && negb errorPassThrough
            && ((statusCode r <? 200) || (statusCode r >=? 300)))%bool; reflexivity.
Qed.

(** Whatever the status of the response, the code after the [try] block
    asks for another attempt or makes the promise resolve. *)
Lemma handleResponse_resolves (attempt : nat) (url : string) (r : GetUrlResponse) :
  handleResponse attempt url r = Retry \/
  exists v, handleResponse attempt url r = Finish (Return v).
Proof.
  rewrite handleResponse_eq. cbv zeta.
  destruct processFunc as [f|]; [|right; eauto].
  destruct (f _ r); [right; eauto| |right; eauto].
  destruct ((attempt <? attemptLimit)%nat && tryAgain throttleCallback attempt url)%bool;
    [left; reflexivity|right; eauto].
Qed.

(** Once a response is handed to the code after the [try] block, the URL
    is not changed any more. *)
Lemma handleResponse_never_redirects (attempt : nat) (url : string) (r : GetUrlResponse)
  (loc : string) :
  handleResponse attempt url r <> Redirect loc.
Proof.
  destruct (handleResponse_resolves attempt url r) as [-> | [v ->]]; discriminate.
Qed.

(** The promise rejects only when [getUrl] fails without a response. *)
Lemma iteration_throw_inv (attempt : nat) (url msg : string) :
  iteration attempt url = Finish (Throw msg) -> getUrl attempt url = Failed None.
Proof.
  unfold Web.iteration.
  destruct (getUrl attempt url) as [r|[r|]]; [| |reflexivity];
    destruct (handleResponse_resolves attempt url r) as [Hr | [v Hr]];
    repeat match goal with
           | |- context [if ?c then _ else _] => destruct c
           end;
    rewrite ?Hr; discriminate.
Qed.

Lemma attempts_throw_inv (remaining attempt : nat) (url msg : string) :
  fst (attempts remaining attempt url) = Throw msg ->
  exists a u, getUrl a u = Failed None.
Proof.
  revert attempt url. induction remaining as [|n IH]; intros attempt url; simpl;
    [discriminate|].
  destruct (iteration attempt url) as [loc| |o] eqn:Hit.
  - specialize (IH (S attempt) loc).
    destruct (attempts n (S attempt) loc) as [o followed]. exact IH.
  - apply IH.
  - simpl. intros ->. eauto using iteration_throw_inv.
Qed.

Lemma iteration_redirect_inv (attempt : nat) (url loc : string) :
  iteration attempt url = Redirect loc ->
  exists r,
    getUrl attempt url = Responded r /\
    (statusCode r = 301 \/ statusCode r = 302) /\
    method = GET /\
    location r = Some loc /\
    String.prefix "https:" loc = true.
Proof.
  unfold Web.iteration.
  destruct (getUrl attempt url) as [r|[r|]] eqn:Hget.
  - destruct (isRedirectStatus r) eqn:Hst.
    + destruct (isGET method && String.prefix "https:" (default "" (location r)))%bool eqn:Hc.
      * intros [= <-]. apply andb_true_iff in Hc as [Hg Hp].
        exists r. split; [reflexivity|]. split.
        { unfold isRedirectStatus in Hst. apply orb_true_iff in Hst as [H|H];
            apply Z.eqb_eq in H; auto. }
        split; [destruct method; [reflexivity|discriminate]|].
        destruct (location r) as [l|]; simpl in *; [split; [reflexivity|exact Hp]|].
        discriminate.
      * intros H. exfalso. exact (handleResponse_never_redirects _ _ _ _ H).
    + destruct (statusCode r =? 429).
      * destruct (S attempt =? attemptLimit)%nat.
        { intros H. exfalso. exact (handleResponse_never_redirects _ _ _ _ H). }
        destruct (tryAgain throttleCallback attempt url); [discriminate|].
        intros H. exfalso. exact (handleResponse_never_redirects _ _ _ _ H).
      * intros H. exfalso. exact (handleResponse_never_redirects _ _ _ _ H).
  - intros H. exfalso. exact (handleResponse_never_redirects _ _ _ _ H).
  - discriminate.
Qed.

Lemma attempts_followed_bound (remaining attempt : nat) (url : string) :
  (length (snd (attempts remaining attempt url)) <= remaining)%nat.
Proof.
  revert attempt url. induction remaining as [|n IH]; intros attempt url; simpl; [lia|].
  destruct (iteration attempt url) as [loc| |o].
  - specialize (IH (S attempt) loc).
    destruct (attempts n (S attempt) loc) as [o followed]. simpl in *. lia.
  - specialize (IH (S attempt) url). lia.
  - simpl. lia.
Qed.

Lemma attempts_followed_https (remaining attempt : nat) (url : string) :
  Forall (fun loc => String.prefix "https:" loc = true)
         (snd (attempts remaining attempt url)).
Proof.
  revert attempt url. induction remaining as [|n IH]; intros attempt url; simpl;
    [constructor|].
  destruct (iteration attempt url) as [loc| |o] eqn:Hit.
  - specialize (IH (S attempt) loc).
    destruct (attempts n (S attempt) loc) as [o followed]. simpl in *.
    constructor; [|exact IH].
    destruct (iteration_redirect_inv _ _ _ Hit) as [r [_ [_ [_ [_ Hp]]]]]. exact Hp.
  - apply IH.
  - constructor.
Qed.

(** C9, amended. A request moves to a new URL only after a 301 or 302
    response, with method GET, to a Location that starts with [https:]; a
    301 or 302 response that fails either condition is handled as the final
    response of the attempt. Each followed redirect uses up one attempt, so
    one call follows at most [attemptLimit] redirects, every one of them to
    an [https:] URL. *)
Theorem redirect_policy (attempt : nat) (url : string) :
  (forall loc,
      iteration attempt url = Redirect loc ->
      exists r,
        getUrl attempt url = Responded r /\
        (statusCode r = 301 \/ statusCode r = 302) /\
        method = GET /\
        location r = Some loc /\
        String.prefix "https:" loc = true) /\
  (forall r,
      getUrl attempt url = Responded r ->
      (statusCode r = 301 \/ statusCode r = 302) ->
      method = POST \/ String.prefix "https:" (default "" (location r)) = false ->
      iteration attempt url = handleResponse attempt url r /\
      forall loc, iteration attempt url <> Redirect loc) /\
  (redirectsFollowed url <= attemptLimit)%nat /\
  Forall (fun loc => String.prefix "https:" loc = true) (snd (runningFetch url)).
Proof.
  split; [intros loc; apply iteration_redirect_inv|].
  split; [|split; [apply attempts_followed_bound | apply attempts_followed_https]].
  intros r Hget Hst Hno.
  assert (Heq : iteration attempt url = handleResponse attempt url r).
  { unfold Web.iteration. rewrite Hget.
    assert (Hr : isRedirectStatus r = true).
    { unfold isRedirectStatus. destruct Hst as [-> | ->]; reflexivity. }
    rewrite Hr.
    assert (Hc : (isGET method && String.prefix "https:" (default "" (location r)))%bool
                 = false).
    { destruct Hno as [-> | ->]; [reflexivity | apply andb_false_r]. }
    rewrite Hc. reflexivity. }
  split; [exact Heq|]. intros loc. rewrite Heq. apply handleResponse_never_redirects.
Qed.

End WebProperties.

Section WebExamples.
Import Js Web.

(** C9 as stated fails: the endpoint that moved twice is followed twice
    within one call, which then returns the document. *)
Lemma runningFetch_follows_two_redirects :
  runningFetch (T := string) movedTwice GET 12 None false false None "http://a"
    = (Return (RawBody (Some "document")), ["https://b"; "https://c"]) /\
  ~ (redirectsFollowed (T := string) movedTwice GET 12 None false false None "http://a" <= 1)%nat.
Proof.
  split; [vm_compute; reflexivity|].
  vm_compute. lia.
Qed.

(** A 302 that answers a POST is not followed. The [assert] on its status
    does not throw, so without a [processFunc] the call returns the body of
    the 302 response. *)
Lemma unfollowed_redirect_returns_body :
  runningFetch (T := string) movedTwice POST 12 None false false None "http://a"
    = (Return (RawBody (Some "")), []).
Proof. vm_compute. reflexivity. Qed.

(** An endpoint that fails without a response: the [assert] does not
    throw, the read of [response.body] does. *)
Lemma missing_response_rejects :
  runningFetch (T := string) (fun _ _ => Failed None) GET 12 None false false None "http://a"
    = (Throw "TypeError", []).
Proof. vm_compute. reflexivity. Qed.

Lemma redirect_policy_witness :
  (exists r,
      movedTwice 0%nat "http://a" = Responded r /\
      (statusCode r = 301 \/ statusCode r = 302) /\
      GET = GET /\
      location r = Some "https://b" /\
      String.prefix "https:" "https://b" = true) /\
  (forall loc,
      iteration (T := string) movedTwice POST 12 None false false None 0 "http://a"
      <> Redirect loc).
Proof.
  split.
  - apply (proj1 (redirect_policy (T := string) movedTwice GET 12 None false false None
                    0 "http://a") "https://b").
    reflexivity.
  - apply (proj1 (proj2 (redirect_policy (T := string) movedTwice POST 12 None false false None
                           0 "http://a"))
             (mkResponse 302 (Some "https://b") None "")
             eq_refl (or_intror eq_refl) (or_introl eq_refl)).
Defined.

End WebExamples.

(** ** ABI decoding *)

Section AbiProperties.
Import Js Abi.

Variable readFile : string -> option string.
Variable newInterface : string -> option Interface.
Variable hexDataSlice4 : string -> option string.

Local Abbreviation parseLog := (parseLog readFile newInterface).
Local Abbreviation parseTransaction := (parseTransaction readFile newInterface hexDataSlice4).
Local Abbreviation decodedLog := (decodedLog readFile newInterface).
Local Abbreviation decodedTransaction := (decodedTransaction readFile newInterface hexDataSlice4).

Lemma abiOf_truthy (ds : option DataSource) :
  truthy_opt (abiOf ds) = true ->
  exists d name, ds = Some d /\ abiOf ds = Some name.
Proof.
  destruct ds as [d|]; [|discriminate]. unfold abiOf.
  destruct (options d) as [o|] eqn:Ho; [|discriminate].
  destruct (abi o) as [name|] eqn:Ha; [|discriminate].
  intros _. exists d, name. split; reflexivity.
Qed.

(** Reading assets and building an interface either return or throw; they
    neither end the process nor loop. *)
Lemma loadEntries_returns_or_throws (entries : list (string * string))
  (res : gmap string string) :
  (exists loaded, loadEntries readFile entries res = Return loaded) \/
  (exists e, loadEntries readFile entries res = Throw e).
Proof.
  revert res. induction entries as [|[name file] rest IH]; intros res; simpl; [eauto|].
  destruct (readFile file); [apply IH | eauto].
Qed.

Lemma loadAssets_returns_or_throws (d : DataSource) :
  (exists loaded, loadAssets readFile d = Return loaded) \/
  (exists e, loadAssets readFile d = Throw e).
Proof.
  unfold loadAssets. destruct (assets d); [apply loadEntries_returns_or_throws | eauto].
Qed.

Lemma buildInterface_returns_or_throws (cache : gmap string Interface) (name : string)
  (loaded : gmap string string) :
  (exists iface, fst (buildInterface newInterface cache name loaded) = Return iface) \/
  (exists e, fst (buildInterface newInterface cache name loaded) = Throw e).
Proof.
  unfold buildInterface.
  destruct (loaded !! name) as [content|]; [|simpl; eauto].
  destruct (truthy content); [|simpl; eauto].
  destruct (cache !! name); [simpl; eauto|].
  destruct (newInterface content); simpl; eauto.
Qed.

(** C10. [parseLog] and [parseTransaction] always return: the result is
    the input itself, or the input with the decoded arguments attached, and
    the latter only when every step of the decoding went through. *)
Theorem parse_never_throws (cache : gmap string Interface) (log : EthereumLog)
  (transaction : EthereumTransaction) (ds : option DataSource) :
  (exists l cache',
      parseLog cache log ds = (Return l, cache') /\
      (l = log \/ exists a, decodedLog cache log ds a /\ l = withLogArgs log a)) /\
  (exists t cache',
      parseTransaction cache transaction ds = (Return t, cache') /\
      (t = transaction \/
       exists a, decodedTransaction cache transaction ds a /\ t = withTxArgs transaction a)).
Proof.
  split.
  - unfold Abi.parseLog, parseLog_try.
    destruct (truthy_opt (abiOf ds)) eqn:Habi; [|simpl; eauto].
    destruct (abiOf_truthy ds Habi) as [d [name [-> Hname]]].
    rewrite Hname. cbn [negb default from_option id].
    destruct (loadAssets_returns_or_throws d) as [[loaded Hload] | [e Hload]];
      rewrite Hload; [|simpl; eauto].
    destruct (buildInterface_returns_or_throws cache name loaded) as [[iface Hb] | [e Hb]];
      destruct (buildInterface newInterface cache name loaded) as [r cache'] eqn:Hbi;
      simpl in Hb; subst r; simpl; eauto.
    destruct (iface_parseLog iface log) as [a|] eqn:Hp; simpl; eauto.
    do 2 eexists. split; [reflexivity|]. right. exists a. split; [|reflexivity].
    exists d, name, loaded, iface. rewrite Hbi. auto.
  - unfold Abi.parseTransaction, parseTransaction_try.
    destruct (truthy_opt (abiOf ds)) eqn:Habi; [|simpl; eauto].
    destruct (abiOf_truthy ds Habi) as [d [name [-> Hname]]].
    rewrite Hname. cbn [negb default from_option id].
    destruct (loadAssets_returns_or_throws d) as [[loaded Hload] | [e Hload]];
      rewrite Hload; [|simpl; eauto].
    destruct (buildInterface_returns_or_throws cache name loaded) as [[iface Hb] | [e Hb]];
      destruct (buildInterface newInterface cache name loaded) as [r cache'] eqn:Hbi;
      simpl in Hb; subst r; simpl; eauto.
    destruct (hexDataSlice4 (tx_input transaction)) as [selector|] eqn:Hs; simpl; eauto.
    destruct (iface_getFunction iface selector) as [func|] eqn:Hf; simpl; eauto.
    destruct (iface_decodeFunctionData iface func (tx_input transaction)) as [a|] eqn:Hd;
      simpl; eauto.
    do 2 eexists. split; [reflexivity|]. right. exists a. split; [|reflexivity].
    exists d, name, loaded, iface, selector, func. rewrite Hbi. auto 10.
Qed.

End AbiProperties.

Section AbiExamples.
Import Js Abi.

Example parseLog_decodes :
  fst (parseLog disk parseAbi ∅ transferLog (Some erc20Ds))
    = Return (withLogArgs transferLog ["from"; "to"; "value"]).
Proof. vm_compute. reflexivity. Qed.

Example parseLog_unknown_event :
  fst (parseLog disk parseAbi ∅ approvalLog (Some erc20Ds)) = Return approvalLog.
Proof. vm_compute. reflexivity. Qed.

Example parseLog_missing_file :
  fst (parseLog disk parseAbi ∅ transferLog (Some missingFileDs)) = Return transferLog.
Proof. vm_compute. reflexivity. Qed.

Example parseLog_no_abi :
  fst (parseLog disk parseAbi ∅ transferLog (Some noAbiDs)) = Return transferLog /\
  fst (parseLog disk parseAbi ∅ transferLog None) = Return transferLog.
Proof. split; vm_compute; reflexivity. Qed.

Example parseTransaction_decodes :
  fst (parseTransaction disk parseAbi slice4 ∅ transferTx (Some erc20Ds))
    = Return (withTxArgs transferTx ["to"; "value"]).
Proof. vm_compute. reflexivity. Qed.

Example parseTransaction_bad_input :
  fst (parseTransaction disk parseAbi slice4 ∅ (mkTransaction "0xb1b5" "zz" None)
         (Some erc20Ds))
    = Return (mkTransaction "0xb1b5" "zz" None).
Proof. vm_compute. reflexivity. Qed.

End AbiExamples.

(** ** Unfinalized blocks tracker: further properties *)

Section UnfinalizedInvariants.
Import Js Unfinalized UnfinalizedInv.

Lemma ascending_lookup_lt (l : UnfinalizedBlocks) (i j : nat) (a b : Z * string) :
  ascending l -> (i < j)%nat -> l !! i = Some a -> l !! j = Some b -> fst a < fst b.
Proof.
  revert i j. induction l as [|r l IH]; intros i j Hasc Hij Hi Hj; [discriminate|].
  destruct j as [|j]; [lia|]. simpl in Hj.
  destruct i as [|i]; simpl in Hi.
  - injection Hi as ->.
    pose proof (ascending_above _ _ Hasc) as Hab.
    rewrite Forall_forall in Hab. apply Hab.
    eapply list_elem_of_lookup_2. exact Hj.
  - apply (IH i j); [apply Hasc | lia | exact Hi | exact Hj].
Qed.

Lemma ascending_height_unique (l : UnfinalizedBlocks) (h : Z) (x y : string) :
  ascending l -> (h, x) ∈ l -> (h, y) ∈ l -> x = y.
Proof.
  intros Hasc Hx Hy.
  apply list_elem_of_lookup_1 in Hx as [i Hi].
  apply list_elem_of_lookup_1 in Hy as [j Hj].
  destruct (lt_eq_lt_dec i j) as [[Hlt | ->] | Hlt].
  - pose proof (ascending_lookup_lt _ _ _ _ _ Hasc Hlt Hi Hj). simpl in *. lia.
  - congruence.
  - pose proof (ascending_lookup_lt _ _ _ _ _ Hasc Hlt Hj Hi). simpl in *. lia.
Qed.

Lemma consecutive_ascending (l : UnfinalizedBlocks) : consecutive l -> ascending l.
Proof.
  induction l as [|r l IH]; [exact id|].
  intros [Hstep Hrest]. split; [|apply IH; exact Hrest].
  destruct l as [|r' l]; [exact I | lia].
Qed.

Lemma consecutive_drop (l : UnfinalizedBlocks) (k : nat) :
  consecutive l -> consecutive (drop k l).
Proof.
  revert l. induction k as [|k IH]; intros l Hc; [rewrite drop_0; exact Hc|].
  destruct l as [|r l]; [exact I|]. simpl. apply IH. apply Hc.
Qed.

Lemma consecutive_snoc (l : UnfinalizedBlocks) (n : Z) (x : string) :
  consecutive l ->
  (forall h y, last l = Some (h, y) -> n = h + 1) ->
  consecutive (l ++ [(n, x)]).
Proof.
  induction l as [|r l IH]; intros Hc Hlast; [simpl; auto|].
  destruct l as [|r' l].
  - simpl. destruct r as [h y]. split; [|auto]. simpl. apply (Hlast h y). reflexivity.
  - destruct Hc as [Hstep Hrest]. split; [exact Hstep|].
    apply IH; [exact Hrest|]. intros h y Hl. apply (Hlast h y). exact Hl.
Qed.

Lemma registerUnfinalizedBlock_consecutive (n : Z) (h : string) (s s' : Service) :
  consecutive (unfinalizedBlocks s) ->
  registerUnfinalizedBlock n h s = Return s' ->
  consecutive (unfinalizedBlocks s').
Proof.
  intros Hc. unfold registerUnfinalizedBlock.
  destruct (n <=? finalizedBlockNumber s); [intros [= <-]; exact Hc|].
  destruct (last (unfinalizedBlocks s)) as [[lastHeight y]|] eqn:Hlast.
  - destruct (Z.eqb_spec (lastHeight + 1) n) as [Heq|Hne]; simpl; [|discriminate].
    intros [= <-]. simpl. apply consecutive_snoc; [exact Hc|].
    intros h0 y0 Heq'. rewrite Hlast in Heq'. inversion Heq'; subst. lia.
  - intros [= <-]. simpl. apply consecutive_snoc; [exact Hc|].
    intros h0 y0 Heq'. rewrite Hlast in Heq'. discriminate.
Qed.

Lemma removeFinalized_suffix (F : Z) (s : Service) :
  exists k, unfinalizedBlocks (removeFinalized F s) = drop k (unfinalizedBlocks s).
Proof.
  unfold removeFinalized. destruct (findIndex F (unfinalizedBlocks s)) as [i|].
  - exists (S i). reflexivity.
  - exists 0%nat. rewrite drop_0. reflexivity.
Qed.

Lemma deleteFinalizedBlock_suffix (s : Service) :
  exists k, unfinalizedBlocks (deleteFinalizedBlock s) = drop k (unfinalizedBlocks s).
Proof.
  unfold deleteFinalizedBlock.
  destruct (lastCheckedBlockHeight s) as [lc|]; [|exists 0%nat; rewrite drop_0; reflexivity].
  destruct (lc <? finalizedBlockNumber s); [|exists 0%nat; rewrite drop_0; reflexivity].
  simpl. apply removeFinalized_suffix.
Qed.

(** X1. Whatever block is processed and however the call ends, a list of
    records with consecutive heights stays a list with consecutive heights:
    registration only appends the next height and the clean-up only cuts a
    prefix off. *)
Theorem processUnfinalizedBlocks_keeps_consecutive (api : Api) (fuel : nat)
  (block : option (Z * string)) (s s' : Service) (r : Rewind) :
  consecutive (unfinalizedBlocks s) ->
  processUnfinalizedBlocks api fuel block s = Return (s', r) ->
  consecutive (unfinalizedBlocks s').
Proof.
  intros Hc. unfold processUnfinalizedBlocks.
  destruct (match block with
            | Some (n, h) => registerUnfinalizedBlock n h s
            | None => Return s
            end) as [s1|e|c|] eqn:Hreg; simpl; try discriminate.
  assert (Hc1 : consecutive (unfinalizedBlocks s1)).
  { destruct block as [[n h]|]; [|injection Hreg as <-; exact Hc].
    eapply registerUnfinalizedBlock_consecutive; eauto. }
  destruct (hasForked api fuel s1) as [forked|e|c|]; simpl; try discriminate.
  destruct forked; simpl.
  - destruct (getLastCorrectFinalizedBlock api s1); simpl; try discriminate.
    intros [= <- _]. exact Hc1.
  - intros [= <- _]. destruct (deleteFinalizedBlock_suffix s1) as [k ->].
    apply consecutive_drop. exact Hc1.
Qed.

Lemma processUnfinalizedBlocks_keeps_consecutive_witness :
  consecutive [(101, "0xa101"); (102, "0xa102"); (103, "0xc103")].
Proof.
  apply (processUnfinalizedBlocks_keeps_consecutive chainApi 200 (Some (103, "0xc103"))
           trackingService
           (mkService [(101, "0xa101"); (102, "0xa102"); (103, "0xc103")]
                      (mkBlock 100 "0xc100" "0xc99") (Some 100)
                      (<[METADATA_UNFINALIZED_BLOCKS_KEY :=
                           MBlocks [(101, "0xa101"); (102, "0xa102"); (103, "0xc103")]]> ∅))
           Null).
  - simpl. lia.
  - vm_compute. reflexivity.
Defined.

Lemma find_first {A} (f : A -> bool) (l : list A) (x : A) :
  List.find f l = Some x ->
  exists l1 l2, l = l1 ++ x :: l2 /\ f x = true /\ Forall (fun y => f y = false) l1.
Proof.
  induction l as [|a l IH]; simpl; [discriminate|].
  destruct (f a) eqn:Hfa.
  - intros [= <-]. exists [], l. auto.
  - intros Hfind. destruct (IH Hfind) as [l1 [l2 [-> [Hx Hno]]]].
    exists (a :: l1), l2. repeat split; [exact Hx|]. constructor; assumption.
Qed.

Lemma find_none_all {A} (f : A -> bool) (l : list A) :
  List.find f l = None <-> Forall (fun y => f y = false) l.
Proof.
  induction l as [|a l IH]; simpl; [split; [constructor|reflexivity]|].
  destruct (f a) eqn:Hfa; split.
  - discriminate.
  - intros H. inversion H; congruence.
  - intros H. constructor; [exact Hfa | apply IH; exact H].
  - intros H. apply IH. inversion H; assumption.
Qed.

Lemma Forall_rev_iff {A} (P : A -> Prop) (l : list A) :
  Forall P (rev l) <-> Forall P l.
Proof.
  split; intros H; [|apply Forall_rev; exact H].
  rewrite <- (rev_involutive l). apply Forall_rev. exact H.
Qed.

Lemma getClosestRecord_some (blockHeight : Z) (s : Service) (h : Z) (x : string) :
  ascending (unfinalizedBlocks s) ->
  getClosestRecord blockHeight s = Some (h, x) ->
  (h, x) ∈ unfinalizedBlocks s /\ h <= blockHeight /\
  forall r, r ∈ unfinalizedBlocks s -> fst r <= blockHeight -> fst r <= h.
Proof.
  intros Hasc. unfold getClosestRecord. intros Hfind.
  destruct (find_first _ _ _ Hfind) as [l1 [l2 [Hrev [Hle Hno]]]].
  simpl in Hle. apply Z.leb_le in Hle.
  assert (Hl : unfinalizedBlocks s = rev l2 ++ (h, x) :: rev l1).
  { rewrite <- (rev_involutive (unfinalizedBlocks s)), Hrev.
    rewrite rev_app_distr. simpl. rewrite <- app_assoc. reflexivity. }
  split; [rewrite Hl; apply elem_of_app; right; apply list_elem_of_here|].
  split; [exact Hle|].
  intros r Hin Hr. rewrite Hl in Hin.
  apply elem_of_app in Hin as [Hin | Hin].
  - apply list_elem_of_lookup_1 in Hin as [i Hi].
    assert (Hlt : fst r < fst (h, x)).
    { apply (ascending_lookup_lt (unfinalizedBlocks s) i (length (rev l2)) r (h, x) Hasc).
      - apply lookup_lt_Some in Hi. exact Hi.
      - rewrite Hl. unfold UnfinalizedBlocks.
        rewrite lookup_app_l; [exact Hi|]. apply lookup_lt_Some in Hi. exact Hi.
      - rewrite Hl. unfold UnfinalizedBlocks.
        rewrite list_lookup_middle; reflexivity. }
    simpl in Hlt. lia.
  - apply elem_of_cons in Hin as [-> | Hin]; [simpl; lia|].
    exfalso. rewrite Forall_forall in Hno.
    assert (Hin' : r ∈ l1) by (apply list_elem_of_In, in_rev, list_elem_of_In; exact Hin).
    specialize (Hno r Hin'). simpl in Hno. apply Z.leb_gt in Hno. lia.
Qed.

Lemma getClosestRecord_none (blockHeight : Z) (s : Service) :
  getClosestRecord blockHeight s = None <->
  Forall (fun r => blockHeight < fst r) (unfinalizedBlocks s).
Proof.
  unfold getClosestRecord. rewrite find_none_all. rewrite Forall_rev_iff.
  split; intros H; eapply Forall_impl; try exact H; simpl; intros r Hr.
  - apply Z.leb_gt in Hr. exact Hr.
  - apply Z.leb_gt. exact Hr.
Qed.

(** X2. [getClosestRecord] on an ascending list: the record it returns is a
    stored record at or below the requested height and no stored record at or
    below that height is higher; it returns nothing exactly when every stored
    record is above the requested height. *)
Theorem getClosestRecord_largest (blockHeight : Z) (s : Service) :
  ascending (unfinalizedBlocks s) ->
  (forall h x,
      getClosestRecord blockHeight s = Some (h, x) ->
      (h, x) ∈ unfinalizedBlocks s /\ h <= blockHeight /\
      forall r, r ∈ unfinalizedBlocks s -> fst r <= blockHeight -> fst r <= h) /\
  (getClosestRecord blockHeight s = None <->
   Forall (fun r => blockHeight < fst r) (unfinalizedBlocks s)).
Proof.
  intros Hasc. split.
  - intros h x Hrec. apply getClosestRecord_some; assumption.
  - apply getClosestRecord_none.
Qed.

Lemma getClosestRecord_largest_witness :
  (97, "0xc97") ∈ unfinalizedBlocks staleService /\ 97 <= 100 /\
  forall r, r ∈ unfinalizedBlocks staleService -> fst r <= 100 -> fst r <= 97.
Proof.
  apply (proj1 (getClosestRecord_largest 100 staleService
                  ltac:(simpl; lia)) 97 "0xc97").
  reflexivity.
Defined.

Lemma walkToHeight_on_chain (api : Api) (lo hi : Z) :
  consistentChain api lo hi ->
  forall (fuel : nat) (header : Block),
    api (ByHeight (number header)) = Some header ->
    lo <= number header <= hi ->
    number header - lo <= Z.of_nat fuel ->
    exists c, walkToHeight api fuel lo header = Return c /\ api (ByHeight lo) = Some c.
Proof.
  intros Hchain fuel. induction fuel as [|fuel IH]; intros header Hon Hrange Hfuel.
  - assert (Heq : lo = number header) by lia.
    simpl. rewrite <- Heq, Z.eqb_refl. exists header. split; [reflexivity|].
    rewrite Heq. exact Hon.
  - simpl. destruct (Z.eqb_spec lo (number header)) as [Heq|Hne].
    + exists header. split; [reflexivity|]. rewrite Heq. exact Hon.
    + destruct (Hchain (number header) Hrange) as [b [Hb [_ Hparent]]].
      rewrite Hon in Hb. injection Hb as <-.
      destruct Hparent as [p [Hp Hhash]]; [lia|].
      destruct (Hchain (number header - 1)) as [p' [Hp' [Hnum _]]]; [lia|].
      rewrite Hp in Hp'. injection Hp' as <-.
      unfold getBlockByHeightOrHash. rewrite Hhash. simpl.
      apply IH; [rewrite Hnum; exact Hp | lia | lia].
Qed.

(** X3. When the endpoint serves one consistent chain from the height of the
    newest verifiable record up to the finalized header, [hasForked] returns
    (with fuel for the 200 parent steps of its loop) and reports a fork
    exactly when the stored hash differs from the hash of the block served
    for the record's height, whichever of its three paths it takes. *)
Theorem hasForked_compares_with_canonical (api : Api) (fuel : nat) (s : Service)
  (h : Z) (x : string) (c : Block) :
  getClosestRecord (finalizedBlockNumber s) s = Some (h, x) ->
  consistentChain api h (finalizedBlockNumber s) ->
  api (ByHeight (finalizedBlockNumber s)) = Some (finalizedHeader s) ->
  api (ByHeight h) = Some c ->
  (200 <= fuel)%nat ->
  hasForked api fuel s = Return (negb (hash c =? x)%string).
Proof.
  intros Hrec Hchain Hfin Hc Hfuel. unfold hasForked. rewrite Hrec.
  assert (Hle : h <= finalizedBlockNumber s).
  { unfold getClosestRecord in Hrec.
    destruct (find_first _ _ _ Hrec) as [_ [_ [_ [Hle _]]]].
    simpl in Hle. apply Z.leb_le in Hle. exact Hle. }
  destruct (Z.eqb_spec h (finalizedBlockNumber s)) as [Heq|Hne].
  - rewrite Heq, Hfin in Hc. injection Hc as <-.
    rewrite String.eqb_sym. reflexivity.
  - fold (finalizedBlockNumber s).
    destruct (finalizedBlockNumber s - h >? 200) eqn:Hfar.
    + unfold getBlockByHeightOrHash. rewrite Hc. reflexivity.
    + assert (Hgap : finalizedBlockNumber s - h <= 200) by lia.
      destruct (walkToHeight_on_chain api h (finalizedBlockNumber s) Hchain fuel
                  (finalizedHeader s)) as [c' [Hwalk Hc']].
      * exact Hfin.
      * unfold finalizedBlockNumber in *. lia.
      * unfold finalizedBlockNumber in *. lia.
      * rewrite Hwalk. simpl. rewrite Hc in Hc'. injection Hc' as <-. reflexivity.
Qed.

Lemma chainApi_consistent : consistentChain chainApi 97 100.
Proof.
  intros n Hn.
  assert (Hcases : n = 97 \/ n = 98 \/ n = 99 \/ n = 100) by lia.
  destruct Hcases as [-> | [-> | [-> | ->]]]; eexists;
    (split; [reflexivity|]); (split; [reflexivity|]); intros _; eexists;
    split; reflexivity.
Defined.

Lemma hasForked_compares_with_canonical_witness :
  hasForked chainApi 200 forkedService = Return true /\
  hasForked chainApi 200 staleService = Return false.
Proof.
  split.
  - apply (hasForked_compares_with_canonical chainApi 200 forkedService 100 "0xf100"
             (mkBlock 100 "0xc100" "0xc99")); try reflexivity.
    intros n Hn. assert (n = 100) as -> by (unfold finalizedBlockNumber in Hn; simpl in Hn; lia).
    eexists. split; [reflexivity|]. split; [reflexivity|]. intros Hlt. lia.
  - apply (hasForked_compares_with_canonical chainApi 200 staleService 97 "0xc97"
             (mkBlock 97 "0xc97" "0xc96")); try reflexivity.
    apply chainApi_consistent.
Defined.

(** X4. With no record at or below the finalized height there is nothing to
    verify: [hasForked] answers false without asking the endpoint, whatever
    the endpoint would say. *)
Theorem hasForked_nothing_to_verify (api : Api) (fuel : nat) (s : Service) :
  Forall (fun r => finalizedBlockNumber s < fst r) (unfinalizedBlocks s) ->
  hasForked api fuel s = Return false.
Proof.
  intros Hall. unfold hasForked.
  assert (Hnone : getClosestRecord (finalizedBlockNumber s) s = None).
  { unfold getClosestRecord. apply find_none_all. apply Forall_rev_iff.
    eapply Forall_impl; [exact Hall|]. simpl. intros r Hr. apply Z.leb_gt. exact Hr. }
  rewrite Hnone. reflexivity.
Qed.

Lemma hasForked_nothing_to_verify_witness :
  hasForked (fun _ => None) 0 trackingService = Return false.
Proof.
  apply hasForked_nothing_to_verify.
  repeat constructor; unfold finalizedBlockNumber; simpl; lia.
Defined.

(** X5. [deleteFinalizedBlock] always records the finalized height as the
    last checked one and never does more to the list than cut a prefix off.
    When the last checked height is known and below the finalized height, the
    store ends up holding the list exactly as it is in memory and the
    finalized height as the last verified height; otherwise neither the list
    nor the store is touched. *)
Theorem deleteFinalizedBlock_effect (s : Service) :
  lastCheckedBlockHeight (deleteFinalizedBlock s) = Some (finalizedBlockNumber s) /\
  finalizedHeader (deleteFinalizedBlock s) = finalizedHeader s /\
  (exists k, unfinalizedBlocks (deleteFinalizedBlock s) = drop k (unfinalizedBlocks s)) /\
  (forall lc,
      lastCheckedBlockHeight s = Some lc -> lc < finalizedBlockNumber s ->
      metadataRepo (deleteFinalizedBlock s) !! METADATA_UNFINALIZED_BLOCKS_KEY
        = Some (MBlocks (unfinalizedBlocks (deleteFinalizedBlock s))) /\
      metadataRepo (deleteFinalizedBlock s) !! METADATA_LAST_FINALIZED_PROCESSED_KEY
        = Some (MNumber (finalizedBlockNumber s))) /\
  ((lastCheckedBlockHeight s = None \/
    exists lc, lastCheckedBlockHeight s = Some lc /\ finalizedBlockNumber s <= lc) ->
   unfinalizedBlocks (deleteFinalizedBlock s) = unfinalizedBlocks s /\
   metadataRepo (deleteFinalizedBlock s) = metadataRepo s).
Proof.
  assert (Hrf : forall F s0, finalizedHeader (removeFinalized F s0) = finalizedHeader s0).
  { intros F s0. unfold removeFinalized. destruct (findIndex F (unfinalizedBlocks s0)); reflexivity. }
  split; [|split; [|split; [apply deleteFinalizedBlock_suffix|split]]].
  - unfold deleteFinalizedBlock.
    destruct (lastCheckedBlockHeight s) as [lc|]; [|reflexivity].
    destruct (lc <? finalizedBlockNumber s); [|reflexivity].
    simpl. unfold finalizedBlockNumber. simpl. rewrite Hrf. reflexivity.
  - unfold deleteFinalizedBlock.
    destruct (lastCheckedBlockHeight s) as [lc|]; [|reflexivity].
    destruct (lc <? finalizedBlockNumber s); [|reflexivity].
    simpl. apply Hrf.
  - intros lc Hlc Hlt. unfold deleteFinalizedBlock. rewrite Hlc.
    apply Z.ltb_lt in Hlt. rewrite Hlt. simpl. split.
    + apply lookup_insert_eq.
    + rewrite lookup_insert_ne by discriminate.
      rewrite lookup_insert_eq. unfold finalizedBlockNumber. rewrite Hrf. reflexivity.
  - intros Hcase. unfold deleteFinalizedBlock.
    destruct Hcase as [-> | [lc [-> Hge]]]; [split; reflexivity|].
    apply Z.ltb_ge in Hge. rewrite Hge. split; reflexivity.
Qed.

Lemma deleteFinalizedBlock_effect_witness :
  metadataRepo (deleteFinalizedBlock staleService) !! METADATA_UNFINALIZED_BLOCKS_KEY
    = Some (MBlocks (unfinalizedBlocks (deleteFinalizedBlock staleService))) /\
  metadataRepo (deleteFinalizedBlock staleService) !! METADATA_LAST_FINALIZED_PROCESSED_KEY
    = Some (MNumber 100) /\
  unfinalizedBlocks (deleteFinalizedBlock trackingService) = unfinalizedBlocks trackingService.
Proof.
  destruct (deleteFinalizedBlock_effect staleService) as [_ [_ [_ [Hsave _]]]].
  destruct (deleteFinalizedBlock_effect trackingService) as [_ [_ [_ [_ Hskip]]]].
  destruct (Hsave 95 eq_refl ltac:(reflexivity)) as [H1 H2].
  split; [exact H1|]. split; [exact H2|].
  apply Hskip. right. exists 100. split; [reflexivity|]. unfold finalizedBlockNumber. simpl. lia.
Defined.

(** X6. The clean-up does its work when the list is ascending and holds the
    finalized block itself: if the record at the finalized height carries the
    finalized hash and the last checked height is below it,
    [processUnfinalizedBlocks] returns null without asking the endpoint and
    every record left is above the finalized height. *)
Theorem processUnfinalizedBlocks_clears_at_finalized_record (api : Api) (fuel : nat)
  (s : Service) (lc : Z) :
  ascending (unfinalizedBlocks s) ->
  (finalizedBlockNumber s, hash (finalizedHeader s)) ∈ unfinalizedBlocks s ->
  lastCheckedBlockHeight s = Some lc -> lc < finalizedBlockNumber s ->
  exists s',
    processUnfinalizedBlocks api fuel None s = Return (s', Null) /\
    Forall (fun r => finalizedBlockNumber s' < fst r) (unfinalizedBlocks s') /\
    lastCheckedBlockHeight s' = Some (finalizedBlockNumber s') /\
    metadataRepo s' !! METADATA_UNFINALIZED_BLOCKS_KEY = Some (MBlocks (unfinalizedBlocks s')).
Proof.
  intros Hasc Hin Hlc Hlt.
  assert (Hforked : hasForked api fuel s = Return false).
  { unfold hasForked.
    destruct (getClosestRecord (finalizedBlockNumber s) s) as [[h x]|] eqn:Hrec.
    - destruct (getClosestRecord_some (finalizedBlockNumber s) s h x Hasc Hrec)
        as [Hmem [Hle Hmax]].
      specialize (Hmax _ Hin). simpl in Hmax.
      assert (Hh : h = finalizedBlockNumber s) by lia. subst h.
      rewrite Z.eqb_refl.
      rewrite (ascending_height_unique _ _ _ _ Hasc Hmem Hin).
      rewrite String.eqb_refl. reflexivity.
    - reflexivity. }
  unfold processUnfinalizedBlocks. simpl. rewrite Hforked. simpl.
  eexists. split; [reflexivity|].
  unfold deleteFinalizedBlock. rewrite Hlc.
  apply Z.ltb_lt in Hlt. rewrite Hlt. simpl.
  assert (Hfh : finalizedHeader (removeFinalized (finalizedBlockNumber s) s) = finalizedHeader s).
  { unfold removeFinalized. destruct (findIndex _ _); reflexivity. }
  unfold finalizedBlockNumber at 1 3. simpl. rewrite Hfh.
  split; [|split; [reflexivity | apply lookup_insert_eq]].
  apply removeFinalized_clears_when_present; [exact Hasc|].
  apply Exists_exists. exists (finalizedBlockNumber s, hash (finalizedHeader s)).
  split; [exact Hin | reflexivity].
Qed.

Lemma processUnfinalizedBlocks_clears_at_finalized_record_witness :
  exists s',
    processUnfinalizedBlocks (fun _ => None) 0 None
      (mkService [(99, "0xc99"); (100, "0xc100"); (101, "0xa101")]
                 (mkBlock 100 "0xc100" "0xc99") (Some 98) ∅) = Return (s', Null) /\
    Forall (fun r => finalizedBlockNumber s' < fst r) (unfinalizedBlocks s') /\
    lastCheckedBlockHeight s' = Some (finalizedBlockNumber s') /\
    metadataRepo s' !! METADATA_UNFINALIZED_BLOCKS_KEY = Some (MBlocks (unfinalizedBlocks s')).
Proof.
  apply (processUnfinalizedBlocks_clears_at_finalized_record (fun _ => None) 0
           (mkService [(99, "0xc99"); (100, "0xc100"); (101, "0xa101")]
                      (mkBlock 100 "0xc100" "0xc99") (Some 98) ∅) 98).
  - simpl. lia.
  - apply list_elem_of_further, list_elem_of_here.
  - reflexivity.
  - reflexivity.
Defined.

Lemma findLastCorrect_result (api : Api) (s : Service) (records : UnfinalizedBlocks) :
  forall (checkingHeader : Block) (r : option Z),
    findLastCorrect api s checkingHeader records = Return r ->
    r = lastCheckedBlockHeight s \/ exists h x, r = Some h /\ (h, x) ∈ records.
Proof.
  induction records as [|[block x] rest IH]; intros checkingHeader r; simpl.
  - intros [= <-]. left. reflexivity.
  - destruct ((x =? hash checkingHeader)%string || (x =? parentHash checkingHeader)%string)%bool.
    + intros [= <-]. right. exists block, x. split; [reflexivity | apply list_elem_of_here].
    + destruct (getBlockByHeightOrHash api (ByHash (parentHash (finalizedHeader s))))
        as [next|e|c|]; simpl; try discriminate.
      intros Hrest. destruct (IH next r Hrest) as [Hl | [h [y [Hr Hin]]]]; [left; exact Hl|].
      right. exists h, y. split; [exact Hr | apply list_elem_of_further; exact Hin].
Qed.

(** X7. Whenever [getLastCorrectFinalizedBlock] returns, the rewind target is
    the height of a stored record that is at or below the finalized height,
    or it is the last checked height: the search never proposes a height that
    was not stored and never one above the finalized block. *)
Theorem getLastCorrectFinalizedBlock_target (api : Api) (s : Service) (r : option Z) :
  getLastCorrectFinalizedBlock api s = Return r ->
  r = lastCheckedBlockHeight s \/
  exists h x, r = Some h /\ (h, x) ∈ unfinalizedBlocks s /\ h <= finalizedBlockNumber s.
Proof.
  unfold getLastCorrectFinalizedBlock. intros Hret.
  destruct (findLastCorrect_result _ _ _ _ _ Hret) as [Hl | [h [x [Hr Hin]]]];
    [left; exact Hl|].
  right. exists h, x. split; [exact Hr|].
  apply list_elem_of_In, in_rev, filter_In in Hin as [Hin Hle].
  split; [apply list_elem_of_In; exact Hin|]. simpl in Hle. apply Z.leb_le. exact Hle.
Qed.

Lemma getLastCorrectFinalizedBlock_target_witness :
  Some 96 = lastCheckedBlockHeight forkedService \/
  exists h x, Some 96 = Some h /\ (h, x) ∈ unfinalizedBlocks forkedService /\
              h <= finalizedBlockNumber forkedService.
Proof.
  apply (getLastCorrectFinalizedBlock_target chainApi forkedService (Some 96)).
  vm_compute. reflexivity.
Defined.

(** X8. The finalized header only moves forward: after any sequence of
    [registerFinalizedBlock] calls the finalized height is the greatest of
    the heights seen and the one held before, and the stored records are
    untouched. *)
Theorem registerFinalizedBlocks_monotone (headers : list Block) (s : Service) :
  finalizedBlockNumber (registerFinalizedBlocks headers s)
    = fold_left Z.max (map number headers) (finalizedBlockNumber s) /\
  finalizedBlockNumber s <= finalizedBlockNumber (registerFinalizedBlocks headers s) /\
  unfinalizedBlocks (registerFinalizedBlocks headers s) = unfinalizedBlocks s.
Proof.
  unfold registerFinalizedBlocks. revert s.
  induction headers as [|header rest IH]; intros s; simpl; [repeat split; try reflexivity; lia|].
  destruct (IH (registerFinalizedBlock header s)) as [Hmax [Hle Hlist]].
  assert (Hstep : finalizedBlockNumber (registerFinalizedBlock header s)
                  = Z.max (finalizedBlockNumber s) (number header) /\
                  unfinalizedBlocks (registerFinalizedBlock header s) = unfinalizedBlocks s).
  { unfold registerFinalizedBlock.
    destruct (Z.geb_spec (finalizedBlockNumber s) (number header)); split;
      try reflexivity; unfold finalizedBlockNumber in *; simpl; lia. }
  destruct Hstep as [Hnum Hsame].
  rewrite Hmax, Hlist, Hnum, Hsame. repeat split. rewrite Hmax, Hnum in Hle. lia.
Qed.

End UnfinalizedInvariants.

(** ** Batched JSON-RPC provider: further properties *)

Section BatchProviderMore.
Import Js BatchProvider.

Lemma feed_lengths (m : gmap Z RpcResult) (batch : list Z) :
  (length (fst (feed m batch)) + length (default [] (snd (feed m batch))) = length batch)%nat.
Proof.
  induction batch as [|rid rest IH]; simpl; [reflexivity|].
  destruct (m !! rid) as [payload|]; simpl; [|reflexivity].
  destruct (feed m rest) as [done pending]. simpl in *. lia.
Qed.

(** X9. [runRequests] settles every request of the batch, once: whatever the
    endpoint answers, the list of settlements is as long as the batch. *)
Theorem runRequests_settles_every_request (p : Provider) (batch : list Z) (r : Response) :
  length (snd (runRequests p batch r)) = length batch.
Proof.
  destruct r as [msg|json|payloads]; simpl.
  - apply length_map.
  - apply length_map.
  - pose proof (feed_lengths (resultMap payloads) batch) as Hlen.
    destruct (feed (resultMap payloads) batch) as [done [pending|]]; simpl in *.
    + rewrite length_app, length_map. lia.
    + lia.
Qed.

Lemma resultMap_from_lookup (payloads : list RpcResult) (m : gmap Z RpcResult) (k : Z) :
  NoDup (id <$> payloads) ->
  (forall p, p ∈ payloads -> m !! id p = None) ->
  fold_left (fun m payload => <[id payload := payload]> m) payloads m !! k
  = match List.find (fun p => id p =? k) payloads with
    | Some p => Some p
    | None => m !! k
    end.
Proof.
  revert m. induction payloads as [|a rest IH]; intros m Hnd Hfresh; simpl; [reflexivity|].
  inversion Hnd as [|? ? Hnotin Hnd']; subst.
  rewrite IH; [|exact Hnd'|].
  - destruct (Z.eqb_spec (id a) k) as [Heq|Hne].
    + destruct (List.find (fun p => id p =? k) rest) as [p|] eqn:Hfind.
      * exfalso. apply find_some in Hfind as [Hin Hk]. apply Z.eqb_eq in Hk.
        apply Hnotin. rewrite Heq, <- Hk. apply list_elem_of_fmap_2, list_elem_of_In. exact Hin.
      * rewrite <- Heq. apply lookup_insert_eq.
    + destruct (List.find (fun p => id p =? k) rest); [reflexivity|].
      apply lookup_insert_ne. exact Hne.
  - intros p Hp. rewrite lookup_insert_ne; [apply Hfresh; apply list_elem_of_further; exact Hp|].
    intros Heq. apply Hnotin. rewrite Heq. apply list_elem_of_fmap_2. exact Hp.
Qed.

Lemma resultMap_lookup (payloads : list RpcResult) (k : Z) (p : RpcResult) :
  NoDup (id <$> payloads) ->
  resultMap payloads !! k = Some p <-> p ∈ payloads /\ id p = k.
Proof.
  intros Hnd. unfold resultMap.
  rewrite resultMap_from_lookup; [|exact Hnd|intros; apply lookup_empty].
  rewrite lookup_empty.
  destruct (List.find (fun q => id q =? k) payloads) as [q|] eqn:Hfind; split.
  - intros [= <-]. apply find_some in Hfind as [Hin Hk].
    split; [apply list_elem_of_In; exact Hin | apply Z.eqb_eq; exact Hk].
  - intros [Hin Hk]. f_equal.
    apply find_some in Hfind as [Hinq Hkq]. apply Z.eqb_eq in Hkq.
    apply list_elem_of_In in Hinq.
    apply list_elem_of_lookup_1 in Hin as [i Hi].
    apply list_elem_of_lookup_1 in Hinq as [j Hj].
    assert (Hij : i = j).
    { eapply NoDup_lookup; [exact Hnd| |]; rewrite list_lookup_fmap.
      - rewrite Hi. simpl. reflexivity.
      - rewrite Hj. simpl. congruence. }
    subst j. congruence.
  - discriminate.
  - intros [Hin Hk]. exfalso.
    apply list_elem_of_In in Hin.
    pose proof (find_none _ _ Hfind p Hin) as Hno. simpl in Hno.
    apply Z.eqb_neq in Hno. contradiction.
Qed.

(** X10. Payloads are matched to requests by id, not by position: two
    responses that hold the same payloads in a different order, each id
    occurring once, leave the provider in the same state and settle every
    request the same way. *)
Theorem runRequests_order_of_payloads (p : Provider) (batch : list Z)
  (payloads payloads' : list RpcResult) :
  NoDup (id <$> payloads) ->
  payloads ≡ₚ payloads' ->
  runRequests p batch (Array payloads) = runRequests p batch (Array payloads').
Proof.
  intros Hnd Hperm.
  assert (Hnd' : NoDup (id <$> payloads')) by (rewrite <- Hperm; exact Hnd).
  assert (Hmap : resultMap payloads = resultMap payloads').
  { apply map_eq. intros k.
    destruct (resultMap payloads !! k) as [q|] eqn:Hq.
    - symmetry. apply resultMap_lookup; [exact Hnd'|].
      apply resultMap_lookup in Hq as [Hin Hk]; [|exact Hnd].
      split; [rewrite <- Hperm; exact Hin | exact Hk].
    - destruct (resultMap payloads' !! k) as [q|] eqn:Hq'; [|reflexivity].
      apply resultMap_lookup in Hq' as [Hin Hk]; [|exact Hnd'].
      assert (Hsome : resultMap payloads !! k = Some q).
      { apply resultMap_lookup; [exact Hnd|]. split; [rewrite Hperm; exact Hin | exact Hk]. }
      congruence. }
  simpl. rewrite Hmap. reflexivity.
Qed.

Lemma runRequests_order_of_payloads_witness :
  runRequests initial [1; 2] (Array [okPayload 1; okPayload 2])
  = runRequests initial [1; 2] (Array [okPayload 2; okPayload 1]).
Proof.
  apply (runRequests_order_of_payloads initial [1; 2]
           [okPayload 1; okPayload 2] [okPayload 2; okPayload 1]).
  - apply (bool_decide_unpack _). vm_compute. exact I.
  - apply Permutation_swap.
Defined.

End BatchProviderMore.

Section BatchQueueProperties.
Import Js BatchQueue.

Lemma flush_wellFormed (q : Queue) :
  wellFormed q ->
  wellFormed (fst (flush q)) /\
  default [] (snd (flush q)) ++ pendingOf (fst (flush q)) = pendingOf q /\
  _nextId (fst (flush q)) = _nextId q /\
  snd (flush q) <> Some [].
Proof.
  intros Hwf. destruct q as [n p a]. unfold wellFormed in Hwf. simpl in Hwf.
  destruct Hwf as [[-> [r [b ->]]] | [-> ->]]; unfold flush, pendingOf; simpl.
  - split; [right; auto|]. rewrite app_nil_r. repeat split. discriminate.
  - split; [right; auto|]. repeat split. discriminate.
Qed.

Lemma send_wellFormed (batchSize : Z) (m : string) (ps : list string) (q : Queue) :
  wellFormed (fst (send batchSize m ps q)) /\
  default [] (snd (send batchSize m ps q)) ++ pendingOf (fst (send batchSize m ps q))
    = pendingOf q ++ [mkRequest m ps (_nextId q)] /\
  _nextId (fst (send batchSize m ps q)) = _nextId q + 1 /\
  snd (send batchSize m ps q) <> Some [].
Proof.
  unfold send.
  set (pending := pendingOf q ++ [mkRequest m ps (_nextId q)]).
  assert (Hwf : wellFormed (mkQueue (_nextId q + 1) (Some pending) true)).
  { left. split; [reflexivity|]. unfold pending. simpl.
    destruct (pendingOf q) as [|r b]; simpl; eauto. }
  destruct (Z.of_nat (length pending) >? batchSize).
  - destruct (flush_wellFormed _ Hwf) as [H1 [H2 [H3 H4]]].
    split; [exact H1|]. split; [exact H2|]. split; [exact H3 | exact H4].
  - simpl. split; [exact Hwf|]. repeat split. discriminate.
Qed.

Lemma step_wellFormed (q : Queue) (e : Event) :
  wellFormed q ->
  wellFormed (fst (step q e)) /\
  default [] (snd (step q e)) ++ pendingOf (fst (step q e)) = pendingOf q ++ issued [e] (_nextId q) /\
  _nextId (fst (step q e)) = _nextId q + Z.of_nat (length (issued [e] (_nextId q))) /\
  snd (step q e) <> Some [].
Proof.
  intros Hwf. destruct e as [batchSize m ps|]; simpl.
  - destruct (send_wellFormed batchSize m ps q) as [H1 [H2 [H3 H4]]]. auto.
  - destruct (flush_wellFormed q Hwf) as [H1 [H2 [H3 H4]]].
    rewrite app_nil_r, Z.add_0_r. auto.
Qed.

Lemma issued_cons (e : Event) (events : list Event) (next : Z) :
  issued (e :: events) next
  = issued [e] next ++ issued events (next + Z.of_nat (length (issued [e] next))).
Proof.
  destruct e as [batchSize m ps|]; simpl; [|rewrite Z.add_0_r]; reflexivity.
Qed.

(** X11. No request is lost, duplicated or reordered by the queue. Starting
    from a queue in which a timer is scheduled exactly when requests are
    pending, after any run of [send] calls and timer firings (with any batch
    sizes) the batches that went out, in order, followed by what is still
    pending are the requests that were pending before followed by the ones
    issued, which carry consecutive ids; no batch that goes out is empty and
    the queue is again in such a state. *)
Theorem queue_conserves_requests (events : list Event) (q : Queue) :
  wellFormed q ->
  concat (snd (run events q)) ++ pendingOf (fst (run events q))
    = pendingOf q ++ issued events (_nextId q) /\
  Forall (fun b => b <> []) (snd (run events q)) /\
  wellFormed (fst (run events q)).
Proof.
  revert q. induction events as [|e rest IH]; intros q Hwf.
  - simpl. rewrite app_nil_r. auto.
  - destruct (step_wellFormed q e Hwf) as [Hwf1 [Hcons [Hnext Hne]]].
    rewrite issued_cons.
    cbn [run]. destruct (step q e) as [q1 out] eqn:Hstep. simpl in *.
    destruct (IH q1 Hwf1) as [IHc [IHn IHw]].
    destruct (run rest q1) as [q2 batches] eqn:Hrun. simpl in *.
    rewrite Hnext in IHc.
    split; [|split; [|exact IHw]].
    + rewrite app_assoc, <- Hcons, <- app_assoc, <- IHc.
      destruct out as [b|]; simpl; [rewrite <- app_assoc|]; reflexivity.
    + destruct out as [b|]; [|exact IHn].
      constructor; [|exact IHn]. intros ->. apply Hne. reflexivity.
Qed.

Lemma queue_conserves_requests_witness :
  concat (snd (run [Send 1 "eth_chainId" []; Send 1 "eth_blockNumber" []; Send 1 "eth_getLogs" []]
                   (emptyQueue 42)))
    ++ pendingOf (fst (run [Send 1 "eth_chainId" []; Send 1 "eth_blockNumber" [];
                            Send 1 "eth_getLogs" []] (emptyQueue 42)))
  = [mkRequest "eth_chainId" [] 42; mkRequest "eth_blockNumber" [] 43;
     mkRequest "eth_getLogs" [] 44].
Proof.
  apply (proj1 (queue_conserves_requests
                  [Send 1 "eth_chainId" []; Send 1 "eth_blockNumber" []; Send 1 "eth_getLogs" []]
                  (emptyQueue 42) (or_intror (conj eq_refl eq_refl)))).
Defined.

(** X12. [send] lets the queue grow one past the batch size before it
    flushes: when at most [batchSize] requests are pending, the call either
    leaves at most [batchSize] requests pending and sends nothing, or it sends
    a batch of exactly [batchSize + 1] requests and empties the queue. *)
Theorem send_flushes_one_past_batch_size (batchSize : Z) (m : string) (ps : list string)
  (q : Queue) :
  Z.of_nat (length (pendingOf q)) <= batchSize ->
  (snd (send batchSize m ps q) = None /\
   Z.of_nat (length (pendingOf (fst (send batchSize m ps q)))) <= batchSize) \/
  (exists b, snd (send batchSize m ps q) = Some b /\
             Z.of_nat (length b) = batchSize + 1 /\
             b = pendingOf q ++ [mkRequest m ps (_nextId q)] /\
             fst (send batchSize m ps q) = emptyQueue (_nextId q + 1)).
Proof.
  intros Hle. unfold send.
  assert (Hlen : Z.of_nat (length (pendingOf q ++ [mkRequest m ps (_nextId q)]))
                 = Z.of_nat (length (pendingOf q)) + 1).
  { rewrite length_app. simpl. lia. }
  destruct (Z.gtb_spec (Z.of_nat (length (pendingOf q ++ [mkRequest m ps (_nextId q)])))
              batchSize) as [Hgt|Hngt].
  - right. eexists. unfold flush. simpl. split; [reflexivity|].
    split; [lia|]. split; reflexivity.
  - left. simpl. split; [reflexivity|]. unfold pendingOf at 1. simpl. exact Hngt.
Qed.

Lemma send_flushes_one_past_batch_size_witness :
  exists b, snd (send 1 "eth_blockNumber" [] (mkQueue 8 (Some [mkRequest "eth_chainId" [] 7]) true))
            = Some b /\
            Z.of_nat (length b) = 1 + 1.
Proof.
  destruct (send_flushes_one_past_batch_size 1 "eth_blockNumber" []
              (mkQueue 8 (Some [mkRequest "eth_chainId" [] 7]) true))
    as [[Hnone _] | [b [Hb [Hlen _]]]].
  - simpl. lia.
  - vm_compute in Hnone. discriminate.
  - exists b. split; [exact Hb | exact Hlen].
Defined.

Lemma probeFrom_status (fetch : nat -> BatchProvider.Response) (remaining size : nat)
  (p : BatchProvider.Provider) :
  BatchProvider.batchSizeStatus (probeFrom fetch remaining size p)
  = BatchProvider.batchSizeStatus p.
Proof.
  revert size p. induction remaining as [|n IH]; intros size p; simpl; [reflexivity|].
  destruct (fetch size) as [msg|json|payloads]; try reflexivity.
  destruct (length payloads =? size)%nat; [|reflexivity].
  rewrite IH. reflexivity.
Qed.

Lemma probeFrom_prefix (fetch : nat -> BatchProvider.Response) (remaining : nat) :
  forall (size k : nat) (p : BatchProvider.Provider),
    (size <= S k)%nat -> (k < size + remaining)%nat ->
    (forall i, (size <= i <= k)%nat -> probeOk fetch i) ->
    ((S k < size + remaining)%nat -> ~ probeOk fetch (S k)) ->
    BatchProvider.batchSize (probeFrom fetch remaining size p)
    = if (size <=? k)%nat then Z.of_nat k else BatchProvider.batchSize p.
Proof.
  induction remaining as [|n IH]; intros size k p Hsize Hk Hok Hstop.
  { simpl. destruct (Nat.leb_spec size k); [lia | reflexivity]. }
  simpl. destruct (Nat.leb_spec size k) as [Hle|Hgt].
  - destruct (Hok size ltac:(lia)) as [payloads [-> Hlen]].
    rewrite Hlen, Nat.eqb_refl.
    destruct (Nat.eq_dec size k) as [->|Hne].
    + destruct n as [|n'].
      * reflexivity.
      * rewrite (IH (S k) k); [|lia|lia|intros i Hi; lia|intros Hlt; apply Hstop; lia].
        destruct (Nat.leb_spec (S k) k); [lia|]. reflexivity.
    + rewrite (IH (S size) k); [|lia|lia|intros i Hi; apply Hok; lia|intros Hlt; apply Hstop; lia].
      destruct (Nat.leb_spec (S size) k); [reflexivity|lia].
  - assert (Heq : size = S k) by lia. subst size.
    assert (Hnot : ~ probeOk fetch (S k)) by (apply Hstop; lia).
    destruct (fetch (S k)) as [msg|json|payloads] eqn:Hf; try reflexivity.
    destruct (Nat.eqb_spec (length payloads) (S k)) as [Hlen|Hlen]; [|reflexivity].
    exfalso. apply Hnot. exists payloads. split; [exact Hf | exact Hlen].
Qed.

(** X13. [determineBatchSize] probes the sizes 1, 2, ... in turn and stops
    at the first probe that is not answered by an array of its own length: if
    the probes of sizes 1..k are answered properly and the next one (when
    k < 10) is not, the batch size becomes k; if the very first probe fails
    the batch size is left as it was. The probing never goes beyond 10 and
    never touches the status. *)
Theorem determineBatchSize_largest_accepted (fetch : nat -> BatchProvider.Response)
  (p : BatchProvider.Provider) (k : nat) :
  (k <= 10)%nat ->
  (forall i, (1 <= i <= k)%nat -> probeOk fetch i) ->
  ((k < 10)%nat -> ~ probeOk fetch (S k)) ->
  BatchProvider.batchSize (determineBatchSize fetch p)
    = (if (1 <=? k)%nat then Z.of_nat k else BatchProvider.batchSize p) /\
  BatchProvider.batchSizeStatus (determineBatchSize fetch p)
    = BatchProvider.batchSizeStatus p.
Proof.
  intros Hk Hok Hstop. unfold determineBatchSize. split; [|apply probeFrom_status].
  apply probeFrom_prefix; [lia | lia | exact Hok | intros Hlt; apply Hstop; lia].
Qed.

Lemma determineBatchSize_largest_accepted_witness :
  BatchProvider.batchSize (determineBatchSize upToThree BatchProvider.initial) = 3 /\
  BatchProvider.batchSizeStatus (determineBatchSize upToThree BatchProvider.initial)
    = BatchProvider.testing.
Proof.
  apply (determineBatchSize_largest_accepted upToThree BatchProvider.initial 3).
  - lia.
  - intros i Hi. assert (Hc : i = 1%nat \/ i = 2%nat \/ i = 3%nat) by lia.
    destruct Hc as [-> | [-> | ->]]; eexists; split; reflexivity.
  - intros _ [payloads [Hf _]]. vm_compute in Hf. discriminate.
Defined.

End BatchQueueProperties.

(** ** Chain API and API service *)

Section ChainApiProperties.
Import Js ChainApi.

Lemma getFinalizedBlockHeight_flag_stays_off (client : Client) (fuel : nat) (st : State) :
  supportsFinalization st = false ->
  supportsFinalization (snd (getFinalizedBlockHeight client fuel st)) = false.
Proof.
  revert st. induction fuel as [|fuel IH]; intros [flag n] Hoff; simpl in Hoff; subst flag;
    simpl; unfold finalizedAttempt, getBestBlockHeight, getBlockNumber; simpl;
    destruct (client n "latest"); simpl; try reflexivity.
  apply IH. reflexivity.
Qed.

(** X14. The fallback of [getFinalizedBlockHeight]. When the endpoint
    rejects the [finalized] tag and then answers [latest] with n, the call
    returns n - 15 and clears [supportsFinalization]; and once the flag is
    cleared no call ever sets it again, whatever the endpoint answers later. *)
Theorem getFinalizedBlockHeight_fallback (client : Client) (fuel : nat) (st : State) :
  (supportsFinalization st = true ->
   client (calls st) "finalized" = None ->
   forall n, client (S (calls st)) "latest" = Some n ->
   getFinalizedBlockHeight client (S fuel) st
   = (Return (n - 15), mkState false (S (S (calls st))))) /\
  (supportsFinalization st = false ->
   supportsFinalization (snd (getFinalizedBlockHeight client fuel st)) = false).
Proof.
  split; [|apply getFinalizedBlockHeight_flag_stays_off].
  destruct st as [flag c]. simpl. intros -> Hfin n Hlatest.
  unfold finalizedAttempt, getBlockNumber. simpl. rewrite Hfin.
  destruct fuel; simpl; unfold finalizedAttempt, getBestBlockHeight, getBlockNumber; simpl;
    rewrite Hlatest; reflexivity.
Qed.

Lemma getFinalizedBlockHeight_fallback_witness :
  getFinalizedBlockHeight preMerge 1 (mkState true 0)
  = (Return (1000 - 15), mkState false 2).
Proof.
  apply (proj1 (getFinalizedBlockHeight_fallback preMerge 0 (mkState true 0))
           eq_refl eq_refl 1000 eq_refl).
Defined.

(** X15. The [catch] of [getFinalizedBlockHeight] retries without a limit
    and without a pause: while the endpoint rejects the [finalized] and the
    [latest] tag, the call neither returns nor throws, however long it runs. *)
Theorem getFinalizedBlockHeight_never_surfaces_error (client : Client) (fuel : nat)
  (st : State) :
  (forall call, client call "finalized" = None /\ client call "latest" = None) ->
  fst (getFinalizedBlockHeight client fuel st) = OutOfFuel.
Proof.
  intros Hdown. revert st. induction fuel as [|fuel IH]; intros [flag c]; simpl;
    unfold finalizedAttempt, getBestBlockHeight, getBlockNumber; simpl;
    destruct (Hdown c) as [Hf Hl]; destruct flag; simpl; rewrite ?Hf, ?Hl; simpl;
    try reflexivity; apply IH.
Qed.

Lemma getFinalizedBlockHeight_never_surfaces_error_witness :
  fst (getFinalizedBlockHeight (fun _ _ => None) 1000 (mkState true 0)) = OutOfFuel.
Proof.
  apply (getFinalizedBlockHeight_never_surfaces_error (fun _ _ => None) 1000 (mkState true 0)).
  intros call. split; reflexivity.
Defined.

End ChainApiProperties.

Section ApiServiceProperties.
Import Js ApiService.
Context {B : Type}.
Variable fetch : nat -> list Z -> option B.

Lemma retryLoop_first_success (batch : list Z) (blocks : B) (k : nat) :
  forall (attemptsLeft calls : nat),
    (k < attemptsLeft)%nat ->
    (forall i, (i < k)%nat -> fetch (calls + i) batch = None) ->
    fetch (calls + k) batch = Some blocks ->
    retryLoop fetch attemptsLeft calls batch = (Return blocks, S (calls + k)).
Proof.
  induction k as [|k IH]; intros attemptsLeft calls Hlt Hfail Hok;
    destruct attemptsLeft as [|n]; try lia; simpl.
  - rewrite Nat.add_0_r in Hok. rewrite Hok, Nat.add_0_r. reflexivity.
  - pose proof (Hfail 0%nat ltac:(lia)) as H0. rewrite Nat.add_0_r in H0. rewrite H0.
    rewrite (IH n (S calls)); [f_equal; lia | lia | |].
    + intros i Hi. replace (S calls + i)%nat with (calls + S i)%nat by lia. apply Hfail. lia.
    + replace (S calls + k)%nat with (calls + S k)%nat by lia. exact Hok.
Qed.

Lemma retryLoop_all_fail (batch : list Z) :
  forall (attemptsLeft calls : nat),
    (forall i, (i < attemptsLeft)%nat -> fetch (calls + i) batch = None) ->
    retryLoop fetch attemptsLeft calls batch
    = (Throw "Maximum number of retries (5) reached.", (calls + attemptsLeft)%nat).
Proof.
  induction attemptsLeft as [|n IH]; intros calls Hfail; simpl.
  - rewrite Nat.add_0_r. reflexivity.
  - pose proof (Hfail 0%nat ltac:(lia)) as H0. rewrite Nat.add_0_r in H0. rewrite H0.
    rewrite IH; [f_equal; lia|].
    intros i Hi. replace (S calls + i)%nat with (calls + S i)%nat by lia. apply Hfail. lia.
Qed.

(** X16. [fetchBlocks] asks at most six times: once, and then up to
    [MAX_RECONNECT_ATTEMPTS] more. It returns the blocks of the first call
    that succeeds and makes no call after it; when all six calls fail it
    throws the maximum-retries error after exactly six calls. *)
Theorem fetchBlocks_retries (calls : nat) (batch : list Z) :
  (forall k blocks,
      (k <= 5)%nat ->
      (forall i, (i < k)%nat -> fetch (calls + i) batch = None) ->
      fetch (calls + k) batch = Some blocks ->
      fetchBlocks fetch calls batch = (Return blocks, S (calls + k))) /\
  ((forall i, (i <= 5)%nat -> fetch (calls + i) batch = None) ->
   fetchBlocks fetch calls batch
   = (Throw "Maximum number of retries (5) reached.", (calls + 6)%nat)).
Proof.
  unfold fetchBlocks, fetchBlocksFromFirstAvailableEndpoint, MAX_RECONNECT_ATTEMPTS. split.
  - intros k blocks Hk Hfail Hok. destruct k as [|k].
    + rewrite Nat.add_0_r in Hok. rewrite Hok, Nat.add_0_r. reflexivity.
    + pose proof (Hfail 0%nat ltac:(lia)) as H0. rewrite Nat.add_0_r in H0. rewrite H0.
      rewrite (retryLoop_first_success batch blocks k); [f_equal; lia | lia | |].
      * intros i Hi. replace (S calls + i)%nat with (calls + S i)%nat by lia. apply Hfail. lia.
      * replace (S calls + k)%nat with (calls + S k)%nat by lia. exact Hok.
  - intros Hfail.
    pose proof (Hfail 0%nat ltac:(lia)) as H0. rewrite Nat.add_0_r in H0. rewrite H0.
    rewrite retryLoop_all_fail; [f_equal; lia|].
    intros i Hi. replace (S calls + i)%nat with (calls + S i)%nat by lia. apply Hfail. lia.
Qed.

End ApiServiceProperties.

Section ApiServiceExamples.
Import Js ApiService.

Lemma fetchBlocks_retries_witness :
  fetchBlocks flaky 0 [7; 8] = (Return [7; 8], 3%nat) /\
  fetchBlocks (fun _ _ => @None (list Z)) 0 [7; 8]
  = (Throw "Maximum number of retries (5) reached.", 6%nat).
Proof.
  split.
  - apply (proj1 (fetchBlocks_retries flaky 0 [7; 8]) 2%nat [7; 8]).
    + lia.
    + intros i Hi. assert (Hc : i = 0%nat \/ i = 1%nat) by lia.
      destruct Hc as [-> | ->]; reflexivity.
    + reflexivity.
  - apply (proj2 (fetchBlocks_retries (fun _ _ => @None (list Z)) 0 [7; 8])).
    intros i Hi. reflexivity.
Defined.

End ApiServiceExamples.

(** ** Dictionary v1: reading a response *)

Section DictV1DataProperties.
Import Js DictV1 DictV1Data.

Lemma setAdd_fold_elem_of (l s : list Height) (h : Height) :
  h ∈ fold_left setAdd l s <-> h ∈ s \/ h ∈ l.
Proof.
  revert s. induction l as [|a l IH]; intros s; simpl.
  - split; [auto | intros [H | H]; [exact H | inversion H]].
  - rewrite IH. unfold setAdd. destruct (bool_decide_reflect (a ∈ s)) as [Hin|Hnin].
    + rewrite elem_of_cons. split; [intros [H | H]; auto|].
      intros [H | [-> | H]]; auto.
    + rewrite elem_of_app, list_elem_of_singleton, elem_of_cons. tauto.
Qed.

Lemma setAdd_fold_NoDup (l s : list Height) :
  NoDup s -> NoDup (fold_left setAdd l s).
Proof.
  revert s. induction l as [|a l IH]; intros s Hnd; simpl; [exact Hnd|].
  apply IH. unfold setAdd. destruct (bool_decide_reflect (a ∈ s)) as [Hin|Hnin]; [exact Hnd|].
  apply NoDup_app. split; [exact Hnd|]. split; [|apply NoDup_singleton].
  intros x Hx Hx'. apply list_elem_of_singleton in Hx'. subst x. contradiction.
Qed.

Lemma blockHeightSet_elem_of (data : Data) (h : Z) :
  Some h ∈ blockHeightSet data <-> reported data h.
Proof.
  unfold blockHeightSet, reported. rewrite setAdd_fold_elem_of. split.
  - intros [Hnil | Hin]; [inversion Hnil|].
    apply list_elem_of_In, in_flat_map in Hin as [[entity nodes] [Hin Hh]].
    exists entity, nodes. split; apply list_elem_of_In; assumption.
  - intros [entity [nodes [Hin Hh]]]. right.
    apply list_elem_of_In, in_flat_map. exists (entity, nodes).
    split; apply list_elem_of_In; assumption.
Qed.

Lemma kept_elem_of (b : Bound) (l : list Height) (h : Z) :
  h ∈ omap id (List.filter (keep b) l) <-> Some h ∈ l /\ within b h = true.
Proof.
  rewrite list_elem_of_omap. split.
  - intros [x [Hx Hid]]. simpl in Hid. subst x.
    apply list_elem_of_In, filter_In in Hx as [Hin Hk].
    split; [apply list_elem_of_In; exact Hin | exact Hk].
  - intros [Hin Hw]. exists (Some h). split; [|reflexivity].
    apply list_elem_of_In, filter_In. split; [apply list_elem_of_In; exact Hin | exact Hw].
Qed.

Lemma kept_NoDup (b : Bound) (l : list Height) :
  NoDup l -> NoDup (omap id (List.filter (keep b) l)).
Proof.
  induction l as [|a l IH]; intros Hnd; simpl; [constructor|].
  apply NoDup_cons in Hnd as [Hnotin Hnd].
  destruct (keep b a) eqn:Hk; [|apply IH; exact Hnd].
  destruct a as [n|]; simpl; [|discriminate].
  apply NoDup_cons. split; [|apply IH; exact Hnd].
  intros Hin. apply kept_elem_of in Hin as [Hin _]. contradiction.
Qed.

Lemma sorted_NoDup_strict (l : list Z) :
  StronglySorted Z.le l -> NoDup l -> StronglySorted Z.lt l.
Proof.
  induction l as [|a l IH]; intros Hs Hnd; [constructor|].
  apply StronglySorted_inv in Hs as [Hs Hall].
  apply NoDup_cons in Hnd as [Hnotin Hnd].
  constructor; [apply IH; assumption|].
  rewrite Forall_forall in *. intros x Hx.
  specialize (Hall x Hx).
  assert (x <> a) by (intros ->; contradiction). lia.
Qed.

Lemma batchBlocks_elem_of (data : Data) (h : Z) :
  h ∈ batchBlocks data <-> reported data h /\ within (endBlock data) h = true.
Proof.
  unfold batchBlocks. rewrite merge_sort_Permutation, kept_elem_of, blockHeightSet_elem_of.
  reflexivity.
Qed.

Lemma batchBlocks_strictly_ascending (data : Data) :
  StronglySorted Z.lt (batchBlocks data).
Proof.
  apply sorted_NoDup_strict.
  - apply StronglySorted_merge_sort; apply _.
  - unfold batchBlocks. rewrite merge_sort_Permutation.
    apply kept_NoDup, setAdd_fold_NoDup. constructor.
Qed.

Lemma minBound_fold_le (bs : list Bound) (n : Z) :
  Finite n ∈ bs ->
  exists m, fold_right minBound Infinity bs = Finite m /\ m <= n.
Proof.
  induction bs as [|b bs IH]; intros Hin; [inversion Hin|].
  apply elem_of_cons in Hin as [<- | Hin]; simpl.
  - destruct (fold_right minBound Infinity bs) as [y|]; simpl; eexists; split;
      try reflexivity; lia.
  - destruct (IH Hin) as [m [-> Hm]].
    destruct b as [x|]; simpl; eexists; split; try reflexivity; lia.
Qed.

Lemma endBlock_le_entity_end (data : Data) (entity : string) (nodes : list Height) (n : Z) :
  (entity, nodes) ∈ data -> last nodes = Some (Some n) ->
  exists m, endBlock data = Finite m /\ m <= n.
Proof.
  intros Hin Hlast. unfold endBlock. apply minBound_fold_le.
  change (Finite n) with (orInfinity (Some n)).
  apply list_elem_of_In, in_map, list_elem_of_In.
  unfold entityEndBlock. apply list_elem_of_omap. exists (entity, nodes). auto.
Qed.

(** X17. A v1 response that passes validation yields a batch that is
    strictly ascending (sorted, no height twice) and holds exactly the
    heights that some entity reported and that do not exceed the returned
    [lastBufferedHeight]. *)
Theorem getData_response_batch (m : DictionaryV1Metadata) (data : Data) (startBlock : Z)
  (c : Core) :
  startBlock <= lastProcessedHeight m ->
  exists r,
    snd (getData_response (Some m) data startBlock c) = Some r /\
    StronglySorted Z.lt (batchBlocks_of r) /\
    forall h, h ∈ batchBlocks_of r <-> reported data h /\ within (lastBufferedHeight r) h = true.
Proof.
  intros Hle. unfold getData_response, dictionaryValidation, validate.
  apply Z.ltb_ge in Hle. rewrite Hle. simpl. eexists. split; [reflexivity|]. simpl.
  split; [apply batchBlocks_strictly_ascending | apply batchBlocks_elem_of].
Qed.

Lemma getData_response_batch_witness :
  exists r,
    snd (getData_response (Some (mkMetadata 5000 "0xgenesis")) twoEntities 1 freshCore) = Some r /\
    StronglySorted Z.lt (batchBlocks_of r) /\
    forall h, h ∈ batchBlocks_of r <->
              reported twoEntities h /\ within (lastBufferedHeight r) h = true.
Proof.
  apply (getData_response_batch (mkMetadata 5000 "0xgenesis") twoEntities 1 freshCore).
  simpl. lia.
Defined.

(** X18. The batch stops at the shortest page: [lastBufferedHeight] is at
    most the height of the last node of every entity that returned nodes, so
    no height of the batch lies beyond the last node of any entity. *)
Theorem getData_response_within_every_page (m : DictionaryV1Metadata) (data : Data)
  (startBlock : Z) (c : Core) (r : DictionaryResponse)
  (entity : string) (nodes : list Height) (n : Z) :
  snd (getData_response (Some m) data startBlock c) = Some r ->
  (entity, nodes) ∈ data -> last nodes = Some (Some n) ->
  (exists e, lastBufferedHeight r = Finite e /\ e <= n) /\
  Forall (fun h => h <= n) (batchBlocks_of r).
Proof.
  unfold getData_response, dictionaryValidation.
  destruct (validate (Some m) (Some startBlock)); simpl; [|discriminate].
  intros [= <-] Hin Hlast. simpl.
  destruct (endBlock_le_entity_end data entity nodes n Hin Hlast) as [e [He Hen]].
  split; [exists e; auto|].
  apply Forall_forall. intros h Hh.
  apply batchBlocks_elem_of in Hh as [_ Hw]. rewrite He in Hw. simpl in Hw.
  apply Z.leb_le in Hw. lia.
Qed.

Lemma getData_response_within_every_page_witness :
  (exists e, lastBufferedHeight (mkResponse (Finite 25) [5; 10; 20; 25]) = Finite e /\ e <= 25) /\
  Forall (fun h => h <= 25) (batchBlocks_of (mkResponse (Finite 25) [5; 10; 20; 25])).
Proof.
  apply (getData_response_within_every_page (mkMetadata 5000 "0xgenesis") twoEntities 1
           freshCore (mkResponse (Finite 25) [5; 10; 20; 25])
           "evmTransactions" [Some 5; Some 20; Some 25] 25).
  - vm_compute. reflexivity.
  - apply list_elem_of_further, list_elem_of_here.
  - reflexivity.
Defined.

(** X19. When no entity of a valid response returned a node, the batch is
    empty and [lastBufferedHeight] is [Infinity] (the minimum of no number),
    not the end of the queried range. *)
Theorem getData_response_no_nodes (m : DictionaryV1Metadata) (data : Data) (startBlock : Z)
  (c : Core) :
  startBlock <= lastProcessedHeight m ->
  Forall (fun en => snd en = []) data ->
  snd (getData_response (Some m) data startBlock c) = Some (mkResponse Infinity []).
Proof.
  intros Hle Hempty. unfold getData_response, dictionaryValidation, validate.
  apply Z.ltb_ge in Hle. rewrite Hle. simpl.
  assert (Hend : entityEndBlock data = []).
  { unfold entityEndBlock. induction Hempty as [|[e ns] l Hns _ IH]; simpl in *; [reflexivity|].
    rewrite Hns. simpl. exact IH. }
  assert (Hflat : flat_map snd data = []).
  { clear Hend. induction Hempty as [|[e ns] l Hns _ IH]; simpl in *; [reflexivity|].
    rewrite Hns, IH. reflexivity. }
  unfold batchBlocks, endBlock, blockHeightSet. rewrite Hflat, Hend. reflexivity.
Qed.

Lemma getData_response_no_nodes_witness :
  snd (getData_response (Some (mkMetadata 5000 "0xgenesis"))
         [("evmLogs", []); ("evmTransactions", [])] 1 freshCore)
  = Some (mkResponse Infinity []).
Proof.
  apply (getData_response_no_nodes (mkMetadata 5000 "0xgenesis")
           [("evmLogs", []); ("evmTransactions", [])] 1 freshCore).
  - simpl. lia.
  - repeat constructor.
Defined.

(** X20. A v1 response is dropped exactly when it carries no metadata or
    the dictionary has not yet processed the start block of the query; the
    validity flag is set accordingly, and a dictionary flagged invalid is not
    used whatever its endpoint. *)
Theorem getData_response_validation (metaData : option DictionaryV1Metadata) (data : Data)
  (startBlock : Z) (c : Core) :
  (snd (getData_response metaData data startBlock c) = None <->
   metaData = None \/ exists m, metaData = Some m /\ lastProcessedHeight m < startBlock) /\
  (snd (getData_response metaData data startBlock c) = None ->
   metadataValid (fst (getData_response metaData data startBlock c)) = Some false /\
   useDictionary (fst (getData_response metaData data startBlock c)) = false) /\
  (snd (getData_response metaData data startBlock c) <> None ->
   metadataValid (fst (getData_response metaData data startBlock c)) = Some true).
Proof.
  unfold getData_response, dictionaryValidation, validate.
  destruct metaData as [m|]; simpl.
  - destruct (Z.ltb_spec (lastProcessedHeight m) startBlock) as [Hlt|Hge]; simpl.
    + split; [split; [intros _; right; exists m; auto | reflexivity]|].
      split; [|intros H; contradiction].
      intros _. split; [reflexivity|]. unfold useDictionary. simpl. apply andb_false_r.
    + split; [split; [discriminate|]|split; [discriminate|reflexivity]].
      intros [H | [m' [[= <-] Hlt]]]; [discriminate | lia].
  - split; [split; [auto | reflexivity]|].
    split; [|intros H; contradiction].
    intros _. split; [reflexivity|]. unfold useDictionary. simpl. apply andb_false_r.
Qed.

Lemma getData_response_validation_witness :
  metadataValid (fst (getData_response (Some (mkMetadata 50 "0xgenesis")) twoEntities 100
                        freshCore)) = Some false /\
  useDictionary (fst (getData_response (Some (mkMetadata 50 "0xgenesis")) twoEntities 100
                        freshCore)) = false.
Proof.
  apply (proj1 (proj2 (getData_response_validation (Some (mkMetadata 50 "0xgenesis"))
                         twoEntities 100 freshCore))).
  reflexivity.
Defined.

Lemma setDictionaryStartHeight_fixed (starts : list (option Z)) (c : Core) (h : Z) :
  _startHeight c = Some h ->
  _startHeight (fold_left (fun c' s => setDictionaryStartHeight s c') starts c) = Some h.
Proof.
  revert c. induction starts as [|s rest IH]; intros c Hc; simpl; [exact Hc|].
  apply IH. unfold setDictionaryStartHeight. rewrite Hc. exact Hc.
Qed.

(** X21. The dictionary start height is set once: the first
    [setDictionaryStartHeight] on a dictionary without one fixes it (1 when
    the dictionary reports none) and no later call changes it. *)
Theorem setDictionaryStartHeight_first_wins (first : option Z) (later : list (option Z))
  (c : Core) :
  _startHeight c = None ->
  startHeight (fold_left (fun c' s => setDictionaryStartHeight s c') (first :: later) c)
  = Return (default 1 first).
Proof.
  intros Hnone. simpl. unfold startHeight.
  rewrite (setDictionaryStartHeight_fixed later _ (default 1 first)); [reflexivity|].
  unfold setDictionaryStartHeight. rewrite Hnone. reflexivity.
Qed.

Lemma setDictionaryStartHeight_first_wins_witness :
  startHeight (fold_left (fun c' s => setDictionaryStartHeight s c')
                 [None; Some 100; Some 7] freshCore) = Return 1.
Proof.
  apply (setDictionaryStartHeight_first_wins None [Some 100; Some 7] freshCore).
  reflexivity.
Defined.

End DictV1DataProperties.

(** ** The HTTP attempt loop and polling: further properties *)

Section WebMore.
Import Js Web.
Context {T : Type}.
Variable getUrl : nat -> string -> GetUrlResult.
Variable attemptLimit : nat.
Variable throttleCallback : option (nat -> string -> bool).
Variable errorPassThrough : bool.
Variable allow304 : bool.
Variable processFunc : option (option string -> GetUrlResponse -> Processed T).

Local Abbreviation iterationGET :=
  (iteration getUrl GET attemptLimit throttleCallback errorPassThrough allow304 processFunc).
Local Abbreviation attemptsGET :=
  (attempts getUrl GET attemptLimit throttleCallback errorPassThrough allow304 processFunc).

Lemma iteration_always_redirects (attempt : nat) (url : string) (r : GetUrlResponse) :
  getUrl attempt url = Responded r ->
  isRedirectStatus r = true ->
  String.prefix "https:" (default "" (location r)) = true ->
  iterationGET attempt url = Redirect (default "" (location r)).
Proof.
  intros Hget Hst Hp. unfold iteration. rewrite Hget, Hst. simpl. rewrite Hp. reflexivity.
Qed.

Lemma attempts_redirect_loop (remaining attempt : nat) (url : string) :
  (forall attempt u, exists r,
      getUrl attempt u = Responded r /\ isRedirectStatus r = true /\
      String.prefix "https:" (default "" (location r)) = true) ->
  fst (attemptsGET remaining attempt url) = Return ResolvedUndefined /\
  length (snd (attemptsGET remaining attempt url)) = remaining.
Proof.
  intros Hloop. revert attempt url.
  induction remaining as [|n IH]; intros attempt url; simpl; [split; reflexivity|].
  destruct (Hloop attempt url) as [r [Hget [Hst Hp]]].
  rewrite (iteration_always_redirects attempt url r Hget Hst Hp).
  specialize (IH (S attempt) (default "" (location r))).
  destruct (attemptsGET n (S attempt) (default "" (location r))) as [o followed].
  simpl in *. destruct IH as [-> ->]. split; reflexivity.
Qed.

(** X22. A GET request to an endpoint that answers every request with a 301
    or 302 to an [https:] location is redirected on every attempt: the call
    follows exactly [attemptLimit] redirects, and only then gives up. The
    [assert] after the loop does not throw, so the promise of the call
    resolves with [undefined]. *)
Theorem runningFetch_redirect_loop (url : string) :
  (forall attempt u, exists r,
      getUrl attempt u = Responded r /\ isRedirectStatus r = true /\
      String.prefix "https:" (default "" (location r)) = true) ->
  fst (runningFetch getUrl GET attemptLimit throttleCallback errorPassThrough allow304
                    processFunc url) = Return ResolvedUndefined /\
  redirectsFollowed getUrl GET attemptLimit throttleCallback errorPassThrough allow304
                    processFunc url = attemptLimit.
Proof.
  intros Hloop. unfold redirectsFollowed, runningFetch.
  apply attempts_redirect_loop. exact Hloop.
Qed.

End WebMore.

Section WebMoreExamples.
Import Js Web.

Lemma runningFetch_redirect_loop_witness :
  fst (runningFetch (T := string)
         (fun _ _ => Responded (mkResponse 302 (Some "https://a") None ""))
         GET 12 None false false None "https://a") = Return ResolvedUndefined /\
  redirectsFollowed (T := string)
    (fun _ _ => Responded (mkResponse 302 (Some "https://a") None ""))
    GET 12 None false false None "https://a" = 12%nat.
Proof.
  apply (runningFetch_redirect_loop (T := string)
           (fun _ _ => Responded (mkResponse 302 (Some "https://a") None ""))
           12 None false false None "https://a").
  intros attempt u. eexists. split; [reflexivity|]. split; reflexivity.
Defined.

End WebMoreExamples.

Section PollProperties.
Import Js Poll.
Context {T : Type}.
Variable func : nat -> Answer T.

Lemma check_first_defined (retryLimit : option nat) (v : T) (k : nat) :
  forall (fuel attempt calls : nat),
    (k <= fuel)%nat ->
    (forall i, (i < k)%nat -> func (calls + i) = Undefined) ->
    (forall i, (i < k)%nat -> limitReached retryLimit (S (attempt + i)) = false) ->
    func (calls + k) = Defined v ->
    check func retryLimit fuel attempt calls = (Return v, S (calls + k)).
Proof.
  induction k as [|k IH]; intros fuel attempt calls Hfuel Hund Hlim Hdef.
  - rewrite Nat.add_0_r in Hdef. destruct fuel; simpl; rewrite Hdef, Nat.add_0_r; reflexivity.
  - destruct fuel as [|fuel]; [lia|]. simpl.
    pose proof (Hund 0%nat ltac:(lia)) as H0. rewrite Nat.add_0_r in H0. rewrite H0.
    pose proof (Hlim 0%nat ltac:(lia)) as L0. rewrite Nat.add_0_r in L0. rewrite L0.
    rewrite (IH fuel (S attempt) (S calls)); [f_equal; lia | lia | | |].
    + intros i Hi. replace (S calls + i)%nat with (calls + S i)%nat by lia. apply Hund. lia.
    + intros i Hi. replace (S (S attempt + i))%nat with (S (attempt + S i))%nat by lia.
      apply Hlim. lia.
    + replace (S calls + k)%nat with (calls + S k)%nat by lia. exact Hdef.
Qed.

Lemma check_limit (limit : nat) :
  forall (fuel attempt calls : nat),
    (attempt <= limit)%nat -> (limit - attempt <= fuel)%nat ->
    (forall i, (i <= limit - attempt)%nat -> func (calls + i) = Undefined) ->
    check func (Some limit) fuel attempt calls
    = (Throw "retry limit reached", S (calls + (limit - attempt))).
Proof.
  intros fuel. induction fuel as [|fuel IH]; intros attempt calls Hle Hfuel Hund.
  - assert (Heq : attempt = limit) by lia. subst attempt.
    simpl. pose proof (Hund 0%nat ltac:(lia)) as H0. rewrite Nat.add_0_r in H0. rewrite H0.
    destruct (Nat.ltb_spec limit (S limit)); [|lia].
    f_equal. lia.
  - simpl. pose proof (Hund 0%nat ltac:(lia)) as H0. rewrite Nat.add_0_r in H0. rewrite H0.
    destruct (Nat.ltb_spec limit (S attempt)) as [Hlt|Hge].
    + f_equal. lia.
    + rewrite (IH (S attempt) (S calls)); [f_equal; lia | lia | lia |].
      intros i Hi. replace (S calls + i)%nat with (calls + S i)%nat by lia. apply Hund. lia.
Qed.

(** X23. [poll] with a retry limit of n calls the function at most n + 1
    times: it resolves with the first defined result when that comes within
    those calls, stopping there, and it rejects with "retry limit reached"
    after exactly n + 1 calls when all of them yield [undefined]. *)
Theorem poll_retry_limit (limit fuel : nat) :
  (limit <= fuel)%nat ->
  (forall k v,
      (k <= limit)%nat ->
      (forall i, (i < k)%nat -> func i = Undefined) ->
      func k = Defined v ->
      poll func (Some limit) fuel = (Return v, S k)) /\
  ((forall i, (i <= limit)%nat -> func i = Undefined) ->
   poll func (Some limit) fuel = (Throw "retry limit reached", S limit)).
Proof.
  intros Hfuel. unfold poll. split.
  - intros k v Hk Hund Hdef.
    rewrite (check_first_defined (Some limit) v k); [reflexivity | lia | | |].
    + intros i Hi. apply Hund. exact Hi.
    + intros i Hi. simpl. apply Nat.ltb_ge. lia.
    + exact Hdef.
  - intros Hund. rewrite check_limit; [f_equal; lia | lia | lia |].
    intros i Hi. apply Hund. lia.
Qed.

(** X24. Without a retry limit (and without a timeout) [poll] has no way
    to give up: while the function keeps yielding [undefined] the promise
    neither resolves nor rejects. *)
Theorem poll_without_limit_never_settles (fuel : nat) :
  (forall i, func i = Undefined) ->
  fst (poll func None fuel) = OutOfFuel.
Proof.
  intros Hund. unfold poll. generalize 0%nat at 1. generalize 0%nat.
  induction fuel as [|fuel IH]; intros calls attempt; simpl; rewrite Hund; simpl;
    [reflexivity | apply IH].
Qed.

End PollProperties.

Section PollExamples.
Import Js Poll.

Lemma poll_retry_limit_witness :
  poll thirdLook (Some 5%nat) 5 = (Return "receipt", 3%nat) /\
  poll (fun _ => @Undefined string) (Some 5%nat) 5 = (Throw "retry limit reached", 6%nat).
Proof.
  destruct (poll_retry_limit thirdLook 5 5 ltac:(lia)) as [Hfirst _].
  destruct (poll_retry_limit (fun _ => @Undefined string) 5 5 ltac:(lia)) as [_ Hall].
  split.
  - apply (Hfirst 2%nat "receipt"); [lia | | reflexivity].
    intros i Hi. assert (Hc : i = 0%nat \/ i = 1%nat) by lia.
    destruct Hc as [-> | ->]; reflexivity.
  - apply Hall. intros i Hi. reflexivity.
Defined.

Lemma poll_without_limit_never_settles_witness :
  fst (poll (fun _ => @Undefined string) None 1000) = OutOfFuel.
Proof.
  apply (poll_without_limit_never_settles (fun _ => @Undefined string) 1000).
  intros i. reflexivity.
Defined.

End PollExamples.

(** ** Dictionary v2: further properties *)

Section DictV2More.
Import Js DictV2 DictV2Conditions.

Variable queryAddressLimit : nat.
Variable functionToSighash : string -> string.
Variable eventToTopic : string -> string.

Local Abbreviation eventCondition := (eventFilterToDictionaryCondition queryAddressLimit eventToTopic).
Local Abbreviation step := (handlerStep queryAddressLimit functionToSighash eventToTopic).
Local Abbreviation visitH := (visitHandlers queryAddressLimit functionToSighash eventToTopic).
Local Abbreviation visitD := (visitDataSources queryAddressLimit functionToSighash eventToTopic).
Local Abbreviation build := (buildDictionaryV2QueryEntry queryAddressLimit functionToSighash eventToTopic).

Lemma addTopic_other (c : LogConditions) (i j : nat) (t : option string) :
  (i < 4)%nat -> (j < 4)%nat -> i <> j ->
  getTopics i (addTopic eventToTopic c (j, t)) = getTopics i c.
Proof.
  intros Hi Hj Hne. unfold addTopic.
  destruct (negb (truthy_opt t)); [reflexivity|].
  assert (Hci : i = 0%nat \/ i = 1%nat \/ i = 2%nat \/ i = 3%nat) by lia.
  assert (Hcj : j = 0%nat \/ j = 1%nat \/ j = 2%nat \/ j = 3%nat) by lia.
  destruct (default "" t =? "!null")%string;
    destruct Hci as [-> | [-> | [-> | ->]]]; destruct Hcj as [-> | [-> | [-> | ->]]];
    try contradiction; reflexivity.
Qed.

Lemma addTopic_same (c : LogConditions) (i : nat) (t : option string) :
  (i < 4)%nat -> getTopics i c = None ->
  getTopics i (addTopic eventToTopic c (i, t)) = topicCondition eventToTopic (Some t).
Proof.
  intros Hi Hnone. unfold addTopic, topicCondition, truthy_opt.
  assert (Hci : i = 0%nat \/ i = 1%nat \/ i = 2%nat \/ i = 3%nat) by lia.
  destruct t as [s|]; cbn -[truthy String.eqb]; [|exact Hnone].
  destruct (truthy s); cbn -[truthy String.eqb]; [|exact Hnone].
  rewrite Hnone.
  destruct (s =? "!null")%string; destruct Hci as [-> | [-> | [-> | ->]]]; reflexivity.
Qed.

Lemma addTopic_address (c : LogConditions) (j : nat) (t : option string) :
  log_address (addTopic eventToTopic c (j, t)) = log_address c.
Proof.
  unfold addTopic. destruct (negb (truthy_opt t)); [reflexivity|].
  destruct (default "" t =? "!null")%string;
    destruct j as [|[|[|j]]]; reflexivity.
Qed.

Lemma imap_shift (n : nat) (rest : list (option string)) :
  imap ((fun k t => ((n + k)%nat, t)) ∘ S) rest = imap (fun k t => ((S n + k)%nat, t)) rest.
Proof. apply imap_ext. intros k x _. simpl. f_equal. lia. Qed.

(** Slots numbered from [n] on do not touch a slot below [n], nor the
    address list. *)
Lemma fold_addTopic_below (items : list (option string)) :
  forall (n : nat) (c : LogConditions) (i : nat),
    (i < n)%nat -> (n + length items <= 4)%nat ->
    getTopics i (fold_left (addTopic eventToTopic) (imap (fun k t => ((n + k)%nat, t)) items) c)
    = getTopics i c.
Proof.
  induction items as [|t rest IH]; intros n c i Hi Hlen; [reflexivity|].
  simpl in Hlen. cbn [imap fold_left]. rewrite Nat.add_0_r, imap_shift.
  rewrite IH by lia. apply addTopic_other; lia.
Qed.

Lemma fold_addTopic_address (items : list (nat * option string)) (c : LogConditions) :
  log_address (fold_left (addTopic eventToTopic) items c) = log_address c.
Proof.
  revert c. induction items as [|[j t] rest IH]; intros c; simpl; [reflexivity|].
  rewrite IH. apply addTopic_address.
Qed.

Lemma fold_addTopic_slot (items : list (option string)) :
  forall (n : nat) (c : LogConditions) (i : nat),
    (n <= i < 4)%nat -> (n + length items <= 4)%nat ->
    getTopics i c = None ->
    getTopics i (fold_left (addTopic eventToTopic) (imap (fun k t => ((n + k)%nat, t)) items) c)
    = topicCondition eventToTopic (items !! (i - n)%nat).
Proof.
  induction items as [|t rest IH]; intros n c i Hi Hlen Hnone.
  - simpl. exact Hnone.
  - simpl in Hlen. cbn [imap fold_left]. rewrite Nat.add_0_r, imap_shift.
    destruct (Nat.eq_dec i n) as [->|Hne].
    + rewrite fold_addTopic_below by lia. rewrite Nat.sub_diag. simpl.
      apply addTopic_same; [lia | exact Hnone].
    + rewrite IH; [| lia | lia | rewrite addTopic_other by lia; exact Hnone].
      replace (i - n)%nat with (S (i - S n)) by lia. reflexivity.
Qed.

(** X25. The log condition built from an event filter: its address list is
    the one extracted from the data-source options, and for each of the
    first four topic slots the condition asks nothing when the slot is empty
    or missing, asks for presence with any value (an empty list) when the
    slot is ['!null'], and otherwise asks for the hash of the slot's
    signature. Slots beyond the fourth are ignored. *)
Theorem eventFilterToDictionaryCondition_slots (f : Filter) (dsOptions : DsOptions)
  (ts : list (option string)) (i : nat) :
  topics f = Some ts -> (i < 4)%nat ->
  getTopics i (fst (eventCondition f dsOptions))
    = topicCondition eventToTopic (ts !! i) /\
  log_address (fst (eventCondition f dsOptions))
    = Some (fst (extractOptionAddresses queryAddressLimit dsOptions)).
Proof.
  intros Hts Hi. unfold eventFilterToDictionaryCondition. rewrite Hts.
  destruct (extractOptionAddresses queryAddressLimit dsOptions) as [addresses w]. simpl.
  split; [|apply fold_addTopic_address].
  change (imap (fun i0 t => (i0, t)) (take 4 ts))
    with (imap (fun k t => ((0 + k)%nat, t)) (take 4 ts)).
  rewrite fold_addTopic_slot; [| lia | rewrite length_take; lia |].
  - rewrite Nat.sub_0_r, lookup_take_lt by lia. reflexivity.
  - destruct i as [|[|[|i]]]; reflexivity.
Qed.

Lemma handlerStep_contributing (ds : DataSource) (h : Handler) :
  contributing h ->
  exists lh th, forall ls txs, step ds h ls txs = Next (ls ++ lh) (txs ++ th).
Proof.
  intros [Hf Hk]. unfold handlerStep.
  destruct (filter h) as [f|]; [|contradiction].
  destruct (kind h) as [| | |k]; [contradiction | | |].
  - destruct (defined (from f) || negb (toIsUndefined f) || truthy_opt (function f))%bool.
    + exists [], [fst (callFilterToDictionaryCondition queryAddressLimit functionToSighash f
                         (options ds))].
      intros ls txs. rewrite app_nil_r. reflexivity.
    + exists [], []. intros ls txs. rewrite !app_nil_r. reflexivity.
  - destruct (groupedOptions ds) as [g|].
    + exists [fst (eventCondition f (Grouped g))], [].
      intros ls txs. rewrite app_nil_r. reflexivity.
    + destruct (match options ds with
                | Some o => truthy_opt (address o)
                | None => false
                end || defined (topics f))%bool.
      * exists [fst (eventCondition f (Single (options ds)))], [].
        intros ls txs. rewrite app_nil_r. reflexivity.
      * exists [], []. intros ls txs. rewrite !app_nil_r. reflexivity.
  - exists [], []. intros ls txs. rewrite !app_nil_r. reflexivity.
Qed.

Lemma visitHandlers_contributing (ds : DataSource) (hs : list Handler) :
  Forall contributing hs ->
  exists lh th, forall ls txs, visitH ds hs ls txs = inr (ls ++ lh, txs ++ th).
Proof.
  induction hs as [|h rest IH]; intros Hall.
  - exists [], []. intros ls txs. rewrite !app_nil_r. reflexivity.
  - inversion Hall as [|? ? Hh Hrest]; subst.
    destruct (handlerStep_contributing ds h Hh) as [l1 [t1 Hstep]].
    destruct (IH Hrest) as [l2 [t2 Hvisit]].
    exists (l1 ++ l2), (t1 ++ t2). intros ls txs. simpl.
    rewrite Hstep, Hvisit, !app_assoc. reflexivity.
Qed.

Lemma visitDataSources_contributing (dss : list DataSource) :
  allContributing dss ->
  exists ld td, forall ls txs, visitD dss ls txs = mkEntry (nonEmpty (ls ++ ld)) (nonEmpty (txs ++ td)).
Proof.
  induction dss as [|ds rest IH]; intros Hall.
  - exists [], []. intros ls txs. rewrite !app_nil_r. reflexivity.
  - inversion Hall as [|? ? Hds Hrest]; subst.
    destruct (visitHandlers_contributing ds (handlers ds) Hds) as [l1 [t1 Hvisit]].
    destruct (IH Hrest) as [l2 [t2 Hrec]].
    exists (l1 ++ l2), (t1 ++ t2). intros ls txs. simpl.
    rewrite Hvisit, Hrec, !app_assoc. reflexivity.
Qed.

Lemma visitDataSources_app (dss1 dss2 : list DataSource) :
  allContributing dss1 ->
  exists ld td,
    (forall ls txs, visitD dss1 ls txs = mkEntry (nonEmpty (ls ++ ld)) (nonEmpty (txs ++ td))) /\
    (forall ls txs, visitD (dss1 ++ dss2) ls txs = visitD dss2 (ls ++ ld) (txs ++ td)).
Proof.
  induction dss1 as [|ds rest IH]; intros Hall.
  - exists [], []. split; intros ls txs; rewrite !app_nil_r; reflexivity.
  - inversion Hall as [|? ? Hds Hrest]; subst.
    destruct (visitHandlers_contributing ds (handlers ds) Hds) as [l1 [t1 Hvisit]].
    destruct (IH Hrest) as [l2 [t2 [Hone Happ]]].
    exists (l1 ++ l2), (t1 ++ t2). split; intros ls txs; simpl; rewrite Hvisit.
    + rewrite Hone, !app_assoc. reflexivity.
    + rewrite Happ, !app_assoc. reflexivity.
Qed.

Lemma default_nonEmpty {A} (l : list A) : default [] (nonEmpty l) = l.
Proof. destruct l; reflexivity. Qed.

(** X26. When no handler is a block handler or lacks a filter, the query
    entry is built data source by data source: the conditions for a list of
    data sources followed by another are the conditions for the first list
    followed by those for the second, for logs and for transactions alike;
    and an entry never carries a key with an empty list. *)
Theorem buildDictionaryV2QueryEntry_app (dss1 dss2 : list DataSource) :
  allContributing dss1 -> allContributing dss2 ->
  logsOf (build (dss1 ++ dss2)) = logsOf (build dss1) ++ logsOf (build dss2) /\
  transactionsOf (build (dss1 ++ dss2))
    = transactionsOf (build dss1) ++ transactionsOf (build dss2) /\
  logs (build (dss1 ++ dss2)) <> Some [] /\
  transactions (build (dss1 ++ dss2)) <> Some [].
Proof.
  intros H1 H2. unfold buildDictionaryV2QueryEntry, logsOf, transactionsOf.
  destruct (visitDataSources_app dss1 dss2 H1) as [l1 [t1 [Hone Happ]]].
  destruct (visitDataSources_contributing dss2 H2) as [l2 [t2 Htwo]].
  rewrite Happ, Hone, !Htwo. simpl. rewrite !default_nonEmpty.
  repeat split.
  - destruct (l1 ++ l2); discriminate.
  - destruct (t1 ++ t2); discriminate.
Qed.

End DictV2More.

Section DictV2MoreExamples.
Import Js DictV2 DictV2Conditions.

Lemma eventFilterToDictionaryCondition_slots_witness :
  getTopics 3 (fst (eventFilterToDictionaryCondition 100 testTopic
                      (mkFilter None ToUndefined None
                         (Some [Some "Transfer(address, address, uint256)"; None; None;
                                Some "!null"; Some "ignored"]) None)
                      (Single (Some erc20Options))))
    = Some [] /\
  log_address (fst (eventFilterToDictionaryCondition 100 testTopic
                      (mkFilter None ToUndefined None
                         (Some [Some "Transfer(address, address, uint256)"; None; None;
                                Some "!null"; Some "ignored"]) None)
                      (Single (Some erc20Options))))
    = Some ["0x7ceb23fd6bc0add59e62ac25578270cff1b9f619"].
Proof.
  apply (eventFilterToDictionaryCondition_slots 100 testTopic
           (mkFilter None ToUndefined None
              (Some [Some "Transfer(address, address, uint256)"; None; None;
                     Some "!null"; Some "ignored"]) None)
           (Single (Some erc20Options))
           [Some "Transfer(address, address, uint256)"; None; None;
            Some "!null"; Some "ignored"] 3).
  - reflexivity.
  - lia.
Defined.

Lemma registry_resolver_contributing : allContributing [registryDs] /\ allContributing [resolverDs].
Proof.
  split; repeat constructor; discriminate.
Defined.

Lemma buildDictionaryV2QueryEntry_app_witness :
  logsOf (buildDictionaryV2QueryEntry 100 testSighash testTopic ([registryDs] ++ [resolverDs]))
  = logsOf (buildDictionaryV2QueryEntry 100 testSighash testTopic [registryDs])
    ++ logsOf (buildDictionaryV2QueryEntry 100 testSighash testTopic [resolverDs]).
Proof.
  apply (buildDictionaryV2QueryEntry_app 100 testSighash testTopic [registryDs] [resolverDs]
           (proj1 registry_resolver_contributing) (proj2 registry_resolver_contributing)).
Defined.

End DictV2MoreExamples.

(** ** ABI decoding: the interface cache *)

Section AbiCache.
Import Js Abi.

Variable readFile : string -> option string.
Variable newInterface : string -> option Interface.
Variable hexDataSlice4 : string -> option string.

Lemma buildInterface_cache_grows (cache : gmap string Interface) (name : string)
  (loaded : gmap string string) :
  cache ⊆ snd (buildInterface newInterface cache name loaded).
Proof.
  unfold buildInterface.
  destruct (loaded !! name) as [content|]; [|reflexivity].
  destruct (truthy content); [|reflexivity].
  destruct (cache !! name) as [iface|] eqn:Hc; [reflexivity|].
  destruct (newInterface content); [|reflexivity].
  simpl. apply insert_subseteq. exact Hc.
Qed.

(** X27. The interface cache only grows: decoding a log or a transaction
    never removes or replaces an interface that is cached. An ABI name that
    is cached is therefore decoded with the interface first built for it,
    whatever the asset file holds by then: [parseLog] for a data source with
    such a name returns what the cached interface decodes, without building
    an interface. *)
Theorem contractInterfaces_first_load_wins (cache : gmap string Interface)
  (log : EthereumLog) (transaction : EthereumTransaction) (ds : option DataSource) :
  cache ⊆ snd (parseLog readFile newInterface cache log ds) /\
  cache ⊆ snd (parseTransaction readFile newInterface hexDataSlice4 cache transaction ds) /\
  (forall d name iface loaded content,
      ds = Some d -> abiOf ds = Some name -> truthy name = true ->
      cache !! name = Some iface ->
      loadAssets readFile d = Return loaded ->
      loaded !! name = Some content -> truthy content = true ->
      parseLog readFile newInterface cache log ds
      = (Return (match iface_parseLog iface log with
                 | Some a => withLogArgs log a
                 | None => log
                 end), cache)).
Proof.
  split; [|split].
  - unfold parseLog, parseLog_try.
    destruct (negb (truthy_opt (abiOf ds))); [reflexivity|].
    destruct ds as [d|]; [|reflexivity].
    destruct (loadAssets readFile d) as [loaded|e|c|]; try reflexivity.
    pose proof (buildInterface_cache_grows cache (default "" (abiOf (Some d))) loaded) as Hsub.
    destruct (buildInterface newInterface cache (default "" (abiOf (Some d))) loaded)
      as [r cache']. exact Hsub.
  - unfold parseTransaction, parseTransaction_try.
    destruct (negb (truthy_opt (abiOf ds))); [reflexivity|].
    destruct ds as [d|]; [|reflexivity].
    destruct (loadAssets readFile d) as [loaded|e|c|]; try reflexivity.
    pose proof (buildInterface_cache_grows cache (default "" (abiOf (Some d))) loaded) as Hsub.
    destruct (buildInterface newInterface cache (default "" (abiOf (Some d))) loaded)
      as [r cache']. exact Hsub.
  - intros d name iface loaded content -> Habi Hname Hcached Hload Hcontent Htruthy.
    unfold parseLog, parseLog_try. rewrite Habi. simpl. rewrite Hname. simpl.
    rewrite Hload. unfold buildInterface. rewrite Hcontent, Htruthy, Hcached. simpl.
    destruct (iface_parseLog iface log); reflexivity.
Qed.

End AbiCache.

Section AbiCacheExamples.
Import Js Abi.

Lemma contractInterfaces_first_load_wins_witness :
  parseLog disk (fun _ => None) (<["erc20" := erc20Interface]> ∅) transferLog (Some erc20Ds)
  = (Return (withLogArgs transferLog ["from"; "to"; "value"]), <["erc20" := erc20Interface]> ∅).
Proof.
  apply (proj2 (proj2 (contractInterfaces_first_load_wins disk (fun _ => None) slice4
                         (<["erc20" := erc20Interface]> ∅) transferLog transferTx
                         (Some erc20Ds)))
           erc20Ds "erc20" erc20Interface (<["erc20" := "[erc20 abi]"]> ∅) "[erc20 abi]");
    reflexivity.
Defined.

End AbiCacheExamples.
